(** * CargoService: the 0/1 knapsack engine of the optimisation backend

    A shallow embedding of [CargoService] (cargo.service.ts) and the
    properties its specification states about it.

    Numbers.  The service computes on JavaScript numbers.  They are
    modelled as exact rationals [Q]: [Math.floor] is [Qfloor], [<=] and
    [!==] are the decidable comparisons of [Q], and rounding error,
    overflow and NaN are outside the model.  Two rationals that denote the
    same number ([==]) are the same JavaScript number.

    Exceptions.  A method either returns a value or throws; this is the
    [result] type.  [BadRequestException] is what the validation throws,
    [RangeError] is what [Array(len)] throws when [len] is not an
    integer between 0 and 2^32 - 1, [TypeError] is a property read on
    [undefined].  The exhaustion of memory is not modelled. *)

From Stdlib Require Import QArith Qround Lqa ZArith Lia List Bool String
  Permutation Sorted DecimalString.
Import ListNotations.

Local Open Scope Q_scope.

(** ** Numbers *)

Definition Math_floor (x : Q) : Z := Qfloor x.

(** [Math.max(a, b)] *)
Definition Math_max (a b : Q) : Q := if Qle_bool a b then b else a.

(** [Math.min(a, b)] *)
Definition Math_min (a b : Q) : Q := if Qle_bool a b then a else b.

(** [Math.round(x)]: the integer nearest to [x], halves going up. *)
Definition Math_round (x : Q) : Z := Qfloor (x + (1 # 2)).

(** [a < b] *)
Definition Qlt_bool (a b : Q) : bool := negb (Qle_bool b a).

Definition Q_of_nat (n : nat) : Q := inject_Z (Z.of_nat n).

(** The decimal rendering of an index inside a template string. *)
Definition string_of_nat (n : nat) : string :=
  NilZero.string_of_uint (Nat.to_uint n).

(** ** Exceptions and results *)

Inductive Exception : Type :=
| BadRequestException (message : string)
| RangeError
| TypeError.

Inductive result (A : Type) : Type :=
| Ok (a : A)
| Throw (e : Exception).

Arguments Ok {A} a.
Arguments Throw {A} e.

Definition bind {A B : Type} (r : result A) (k : A -> result B) : result B :=
  match r with
  | Ok a => k a
  | Throw e => Throw e
  end.

Notation "x <- c1 ;; c2" := (bind c1 (fun x => c2))
  (at level 61, c1 at next level, right associativity).
Notation "c1 ;;; c2" := (bind c1 (fun _ => c2))
  (at level 61, right associativity).

(** ** Data transfer objects *)

Record CargoItemDto : Type := mkItem {
  id : string;
  name : string;
  weight : Q;
  profit : Q
}.

Record KnapsackProblemDto : Type := mkProblem {
  capacity : Q;
  items : list CargoItemDto
}.

Record SelectedItemDetail : Type := mkDetail {
  sel_id : string;
  sel_name : string;
  sel_weight : Q;
  sel_profit : Q
}.

Record KnapsackSolutionDto : Type := mkSolution {
  selectedItemIds : list string;
  selectedItems : list SelectedItemDetail;
  totalProfit : Q;
  totalWeight : Q;
  remainingCapacity : Q;
  utilizationPercentage : Q;
  method : string
}.

(** ** validateProblem *)

(** [items.forEach((item, index) => ...)] of [validateProblem]. *)
Fixpoint validateItems (l : list CargoItemDto) (index : nat) : result unit :=
  match l with
  | [] => Ok tt
  | item :: rest =>
      if Qle_bool (weight item) 0 then
        Throw (BadRequestException
                 ("El peso del item " ++ string_of_nat index ++ " debe ser mayor a cero"))
      else if Qlt_bool (profit item) 0 then
        Throw (BadRequestException
                 ("El beneficio del item " ++ string_of_nat index ++ " no puede ser negativo"))
      else validateItems rest (S index)
  end.

(** [new Set(ids)]: the distinct identifiers. *)
Definition Set_of (ids : list string) : list string := nodup string_dec ids.

Definition validateProblem (problem : KnapsackProblemDto) : result unit :=
  if Qle_bool (capacity problem) 0 then
    Throw (BadRequestException "La capacidad debe ser mayor a cero")
  else if (List.length (items problem) =? 0)%nat then
    Throw (BadRequestException "Debe haber al menos un item disponible")
  else
    validateItems (items problem) 0 ;;;
    let ids := map id (items problem) in
    let uniqueIds := Set_of ids in
    if negb (List.length ids =? List.length uniqueIds)%nat then
      Throw (BadRequestException "Los IDs de los items deben ser únicos")
    else Ok tt.

(** ** Arrays and loops *)

(** The largest length of an array, 2^32 - 1. *)
Definition max_array_length : Z := 4294967295.

(** [Array(len)] accepts an integer between 0 and 2^32 - 1 and throws
    [RangeError] on anything else. *)
Definition is_array_length (len : Q) : bool :=
  Qeq_bool len (inject_Z (Qfloor len)) && (0 <=? Qfloor len)%Z
  && (Qfloor len <=? max_array_length)%Z.

(** One evaluation of the callback per slot, left to right. *)
Fixpoint replicateM {A : Type} (n : nat) (cell : result A) : result (list A) :=
  match n with
  | O => Ok []
  | S n' => a <- cell ;; rest <- replicateM n' cell ;; Ok (a :: rest)
  end.

(** [Array(len).fill(0).map(() => cell)] *)
Definition Array_fill_map {A : Type} (len : Q) (cell : result A) : result (list A) :=
  if is_array_length len then replicateM (Z.to_nat (Qfloor len)) cell
  else Throw RangeError.

(** [Array(len).fill(0)] *)
Definition Array_fill0 (len : Q) : result (list Q) := Array_fill_map len (Ok 0).

(** [count] iterations of [body] on the indices [i], [i+1], ... *)
Fixpoint for_up {S : Type} (count i : nat) (body : nat -> S -> result S) (s : S)
  : result S :=
  match count with
  | O => Ok s
  | Datatypes.S c => s' <- body i s ;; for_up c (Datatypes.S i) body s'
  end.

(** [for (let i = lo; i <= hi; i++) body] *)
Definition for_le {S : Type} (lo : nat) (hi : Q) (body : nat -> S -> result S) (s : S)
  : result S :=
  for_up (Z.to_nat (Qfloor hi + 1 - Z.of_nat lo)) lo body s.

(** [l[n] = f(l[n])] on a slot that exists.  Every index the solvers write
    is inside the table they allocated (lemmas [fill_row2_spec] and
    [fill_row3_spec]), so the growth of a JavaScript array on a write past
    its end never happens. *)
Fixpoint update {A : Type} (n : nat) (f : A -> A) (l : list A) : list A :=
  match l, n with
  | [], _ => []
  | x :: r, O => f x :: r
  | x :: r, S n' => x :: update n' f r
  end.

Definition table2 : Type := list (list Q).
Definition table3 : Type := list (list (list Q)).

(** [dp[i][w]] *)
Definition get2 (dp : table2) (i w : nat) : Q := nth w (nth i dp []) 0.
(** [dp[i][w] = v] *)
Definition set2 (dp : table2) (i w : nat) (v : Q) : table2 :=
  update i (update w (fun _ => v)) dp.
(** [dp[i][w][k]] *)
Definition get3 (dp : table3) (i w k : nat) : Q := nth k (nth w (nth i dp []) []) 0.
(** [dp[i][w][k] = v] *)
Definition set3 (dp : table3) (i w k : nat) (v : Q) : table3 :=
  update i (update w (update k (fun _ => v))) dp.

(** ** solve *)

(** The body of the loop on [w]. *)
Definition fill_cell2 (i : nat) (weight : Z) (profit : Q) (w : nat) (dp : table2)
  : result table2 :=
  if (weight <=? Z.of_nat w)%Z then
    Ok (set2 dp i w
          (Math_max (get2 dp (i - 1) w)
                    (get2 dp (i - 1) (Z.to_nat (Z.of_nat w - weight)) + profit)))
  else
    Ok (set2 dp i w (get2 dp (i - 1) w)).

(** The body of the loop on [i]. *)
Definition fill_row2 (items : list CargoItemDto) (capacity : Q) (i : nat) (dp : table2)
  : result table2 :=
  match nth_error items (i - 1) with
  | None => Throw TypeError
  | Some currentItem =>
      let weight := Math_floor (weight currentItem) in
      let profit := profit currentItem in
      for_le 0 capacity (fill_cell2 i weight profit) dp
  end.

(** The variables of the reconstruction loops: the two result arrays,
    [w], [k] and [totalWeight].  Once the table is allocated the capacity
    and the limit are integers, so [w] and [k] are integers.  [solve] has
    no [k]; it leaves [acc_k] alone. *)
Record Selection : Type := mkSelection {
  acc_ids : list string;
  acc_items : list SelectedItemDetail;
  acc_w : Z;
  acc_k : Z;
  acc_totalWeight : Q
}.

(** What the body of a reconstruction loop does with a selected item;
    [dk] is 1 where the loop has [k--] and 0 where it has not. *)
Definition select_item (item : CargoItemDto) (dk : Z) (st : Selection) : Selection :=
  {| acc_ids := acc_ids st ++ [id item];
     acc_items := acc_items st ++
                  [{| sel_id := id item; sel_name := name item;
                      sel_weight := weight item; sel_profit := profit item |}];
     acc_w := acc_w st - Math_floor (weight item);
     acc_k := acc_k st - dk;
     acc_totalWeight := acc_totalWeight st + weight item |}.

(** [for (let i = n; i > 0 && w > 0; i--)] *)
Fixpoint backtrack2 (dp : table2) (items : list CargoItemDto) (i : nat) (st : Selection)
  : result Selection :=
  match i with
  | O => Ok st
  | S i' =>
      if (0 <? acc_w st)%Z then
        let w := Z.to_nat (acc_w st) in
        if negb (Qeq_bool (get2 dp i w) (get2 dp i' w)) then
          match nth_error items i' with
          | None => Throw TypeError
          | Some item => backtrack2 dp items i' (select_item item 0 st)
          end
        else backtrack2 dp items i' st
      else Ok st
  end.

Definition solution_of (capacity : Q) (st : Selection) (totalProfit : Q) (method : string)
  : KnapsackSolutionDto :=
  let totalWeight := acc_totalWeight st in
  let remainingCapacity := capacity - totalWeight in
  let utilizationPercentage := (totalWeight / capacity) * 100 in
  {| selectedItemIds := acc_ids st;
     selectedItems := acc_items st;
     totalProfit := totalProfit;
     totalWeight := totalWeight;
     remainingCapacity := remainingCapacity;
     utilizationPercentage := inject_Z (Math_round (utilizationPercentage * 100)) / 100;
     method := method |}.

Definition solve (problem : KnapsackProblemDto) : result KnapsackSolutionDto :=
  validateProblem problem ;;;
  let capacity := capacity problem in
  let items := items problem in
  let n := List.length items in
  dp <- Array_fill_map (Q_of_nat n + 1) (Array_fill0 (capacity + 1)) ;;
  dp <- for_le 1 (Q_of_nat n) (fill_row2 items capacity) dp ;;
  st <- backtrack2 dp items n
          {| acc_ids := []; acc_items := []; acc_w := Qfloor capacity;
             acc_k := 0; acc_totalWeight := 0 |} ;;
  let totalProfit := get2 dp n (Z.to_nat (Qfloor capacity)) in
  Ok (solution_of capacity st totalProfit "Programación Dinámica - Mochila 0/1").

(** ** optimizeMultipleScenarios *)

(** [l.map(f)] with a callback that may throw: left to right, and the
    first exception ends the traversal. *)
Fixpoint Array_map {A B : Type} (f : A -> result B) (l : list A) : result (list B) :=
  match l with
  | [] => Ok []
  | x :: rest => y <- f x ;; ys <- Array_map f rest ;; Ok (y :: ys)
  end.

Definition optimizeMultipleScenarios (problems : list KnapsackProblemDto)
  : result (list KnapsackSolutionDto) :=
  Array_map (fun problem => solve problem) problems.

(** ** solveWithItemLimit *)

(** The body of the loop on [k]. *)
Definition fill_cell3 (i : nat) (weight : Z) (profit : Q) (w k : nat) (dp : table3)
  : result table3 :=
  if (weight <=? Z.of_nat w)%Z && (0 <? k)%nat then
    Ok (set3 dp i w k
          (Math_max (get3 dp (i - 1) w k)
                    (get3 dp (i - 1) (Z.to_nat (Z.of_nat w - weight)) (k - 1) + profit)))
  else
    Ok (set3 dp i w k (get3 dp (i - 1) w k)).

(** The body of the loop on [i]. *)
Definition fill_row3 (items : list CargoItemDto) (capacity maxItems : Q) (i : nat)
  (dp : table3) : result table3 :=
  match nth_error items (i - 1) with
  | None => Throw TypeError
  | Some currentItem =>
      let weight := Math_floor (weight currentItem) in
      let profit := profit currentItem in
      for_le 0 capacity
        (fun w => for_le 0 maxItems (fill_cell3 i weight profit w)) dp
  end.

(** [for (let i = n; i > 0 && w > 0 && k > 0; i--)] *)
Fixpoint backtrack3 (dp : table3) (items : list CargoItemDto) (i : nat) (st : Selection)
  : result Selection :=
  match i with
  | O => Ok st
  | S i' =>
      if (0 <? acc_w st)%Z && (0 <? acc_k st)%Z then
        let w := Z.to_nat (acc_w st) in
        let k := Z.to_nat (acc_k st) in
        if negb (Qeq_bool (get3 dp i w k) (get3 dp i' w k)) then
          match nth_error items i' with
          | None => Throw TypeError
          | Some item => backtrack3 dp items i' (select_item item 1 st)
          end
        else backtrack3 dp items i' st
      else Ok st
  end.

Definition solveWithItemLimit (problem : KnapsackProblemDto) (maxItems : Q)
  : result KnapsackSolutionDto :=
  validateProblem problem ;;;
  if Qle_bool maxItems 0 then
    Throw (BadRequestException "El límite de items debe ser mayor a cero")
  else
    let capacity := capacity problem in
    let items := items problem in
    let n := Math_min (Q_of_nat (List.length items)) maxItems in
    dp <- Array_fill_map (n + 1)
            (Array_fill_map (capacity + 1) (Array_fill0 (maxItems + 1))) ;;
    dp <- for_le 1 n (fill_row3 items capacity maxItems) dp ;;
    st <- backtrack3 dp items (Z.to_nat (Qfloor n))
            {| acc_ids := []; acc_items := []; acc_w := Qfloor capacity;
               acc_k := Qfloor maxItems; acc_totalWeight := 0 |} ;;
    let totalProfit :=
      get3 dp (Z.to_nat (Qfloor n)) (Z.to_nat (Qfloor capacity))
           (Z.to_nat (Qfloor maxItems)) in
    Ok (solution_of capacity st totalProfit
          ("Programación Dinámica - Mochila 0/1 (máx "
             ++ string_of_nat (Z.to_nat (Qfloor maxItems)) ++ " items)")).

(** ** calculateEfficiency *)

(** [{ ...item, efficiency }] *)
Record ItemWithEfficiency : Type := mkEff {
  eff_item : CargoItemDto;
  efficiency : Q
}.

(** [Array.prototype.sort] is stable, and on a comparator that is a
    consistent order its result is the stable sorted rearrangement, which
    insertion from the right computes: an element goes in front of the
    first one that does not have to precede it. *)
Fixpoint sort_insert {A : Type} (cmp : A -> A -> Q) (x : A) (l : list A) : list A :=
  match l with
  | [] => [x]
  | y :: rest =>
      if Qle_bool (cmp x y) 0 then x :: y :: rest
      else y :: sort_insert cmp x rest
  end.

Fixpoint Array_sort {A : Type} (cmp : A -> A -> Q) (l : list A) : list A :=
  match l with
  | [] => []
  | x :: rest => sort_insert cmp x (Array_sort cmp rest)
  end.

Definition calculateEfficiency (problem : KnapsackProblemDto) : list ItemWithEfficiency :=
  let itemsWithEfficiency :=
    map (fun item => {| eff_item := item; efficiency := profit item / weight item |})
        (items problem) in
  Array_sort (fun a b => efficiency b - efficiency a) itemsWithEfficiency.

(** * Specification-level definitions *)

(** A number is an integer when it is its own floor. *)
Definition integral (x : Q) : Prop := x == inject_Z (Qfloor x).

(** [x + 1] is the length of an array: [x] is an integer below
    2^32 - 1. *)
Definition fits_array (x : Q) : Prop :=
  integral x /\ (Qfloor x < max_array_length)%Z.

(** The table of [solve] can be allocated: one row per item and one
    more, one cell per unit of capacity and one more. *)
Definition table_fits (problem : KnapsackProblemDto) : Prop :=
  fits_array (capacity problem) /\
  (Z.of_nat (List.length (items problem)) < max_array_length)%Z.

(** A table of [rows] rows of [cols] cells. *)
Definition shape2 (rows cols : nat) (dp : table2) : Prop :=
  List.length dp = rows /\ Forall (fun r => List.length r = cols) dp.

(** A table of [rows] planes of [cols] rows of [deep] cells. *)
Definition shape3 (rows cols deep : nat) (dp : table3) : Prop :=
  List.length dp = rows /\ Forall (shape2 cols deep) dp.

Definition item_ok (item : CargoItemDto) : Prop :=
  0 < weight item /\ 0 <= profit item.

(** The preconditions of the solvers: a positive capacity, at least one
    item, positive weights, profits that are not negative, and identifiers
    that are pairwise distinct. *)
Definition preconditions (problem : KnapsackProblemDto) : Prop :=
  0 < capacity problem /\
  items problem <> [] /\
  Forall item_ok (items problem) /\
  NoDup (map id (items problem)).

Definition is_BadRequest (e : Exception) : Prop :=
  exists message, e = BadRequestException message.


(** The recurrence as the specification words it, [best[i][w]]: the
    first [i] items on a budget of [w] grid units.  Row 0 is 0; item [i]
    is [items[i-1]] and its grid weight is its weight truncated to an
    integer.  The tables that the solvers fill are compared with it
    ([filled2], [filled3]). *)
Fixpoint best (items : list CargoItemDto) (i w : nat) : Q :=
  match i with
  | O => 0
  | S i' =>
      match nth_error items i' with
      | Some item =>
          let weight_i := Qfloor (weight item) in
          if (weight_i <=? Z.of_nat w)%Z then
            Math_max (best items i' w)
                     (best items i' (Z.to_nat (Z.of_nat w - weight_i)) + profit item)
          else best items i' w
      | None => best items i' w
      end
  end.

(** The recurrence of the bounded variant, [best[i][w][k]]. *)
Fixpoint best3 (items : list CargoItemDto) (i w k : nat) : Q :=
  match i with
  | O => 0
  | S i' =>
      match nth_error items i' with
      | Some item =>
          let weight_i := Qfloor (weight item) in
          if (weight_i <=? Z.of_nat w)%Z && (0 <? k)%nat then
            Math_max (best3 items i' w k)
                     (best3 items i' (Z.to_nat (Z.of_nat w - weight_i)) (k - 1)
                      + profit item)
          else best3 items i' w k
      | None => best3 items i' w k
      end
  end.

(** Rows 0 to [i] of the table hold the recurrence. *)
Definition filled2 (items : list CargoItemDto) (rows cols i : nat) (dp : table2) : Prop :=
  shape2 rows cols dp /\
  forall j w, (j <= i)%nat -> (w < cols)%nat -> get2 dp j w = best items j w.

Definition filled3 (items : list CargoItemDto) (rows cols deep i : nat) (dp : table3)
  : Prop :=
  shape3 rows cols deep dp /\
  forall j w k, (j <= i)%nat -> (w < cols)%nat -> (k < deep)%nat ->
                get3 dp j w k = best3 items j w k.

(** Grid weights are not negative. *)
Definition grid_ok (items : list CargoItemDto) : Prop :=
  Forall (fun item => (0 <= Qfloor (weight item))%Z) items.

(** The variables of the reconstruction loop before its first iteration. *)
Definition start (capacity k : Q) : Selection :=
  {| acc_ids := []; acc_items := []; acc_w := Qfloor capacity;
     acc_k := Qfloor k; acc_totalWeight := 0 |}.

Definition method_solve : string := "Programación Dinámica - Mochila 0/1".

Definition method_limit (maxItems : Q) : string :=
  "Programación Dinámica - Mochila 0/1 (máx "
    ++ string_of_nat (Z.to_nat (Qfloor maxItems)) ++ " items)".

(** The capacity and the limit as table indices. *)
Definition index_of (x : Q) : nat := Z.to_nat (Qfloor x).



(** The summed profit of a list of selected items. *)
Definition sum_profit (l : list SelectedItemDetail) : Q :=
  fold_right (fun d acc => sel_profit d + acc) 0 l.

(** The summed grid weight of a list of selected items. *)
Definition sum_grid_weight (l : list SelectedItemDetail) : Z :=
  fold_right (fun d acc => (Qfloor (sel_weight d) + acc)%Z) 0%Z l.

(** The summed weight of a list of selected items. *)
Definition sum_weight (l : list SelectedItemDetail) : Q :=
  fold_right (fun d acc => sel_weight d + acc) 0 l.

(** ** Concrete problems *)

(** The example of the service's documentation (scenario A). *)
Definition example_problem : KnapsackProblemDto :=
  mkProblem 50 [mkItem "1" "A" 10 100; mkItem "2" "B" 20 150].

(** A capacity that is not an integer. *)
Definition fractional_problem : KnapsackProblemDto :=
  mkProblem (5 # 2) [mkItem "1" "A" 1 100].

(** One item of weight 1.9 on a capacity of 1. *)
Definition overload_problem : KnapsackProblemDto :=
  mkProblem 1 [mkItem "1" "A" (19 # 10) 10].

(** An item lighter than one grid unit in front of an item that fills
    the capacity. *)
Definition light_item_problem : KnapsackProblemDto :=
  mkProblem 1 [mkItem "1" "A" (1 # 2) 5; mkItem "2" "B" 1 10].

(** The items of scenario E. *)
Definition scenario_E_items : list CargoItemDto :=
  [mkItem "1" "A" 10 100; mkItem "2" "B" 5 80].


(** An item with another profit. *)
Definition with_profit (item : CargoItemDto) (profit' : Q) : CargoItemDto :=
  mkItem (id item) (name item) (weight item) profit'.

(** An item with its efficiency, as [calculateEfficiency] builds it. *)
Definition with_efficiency (item : CargoItemDto) : ItemWithEfficiency :=
  {| eff_item := item; efficiency := profit item / weight item |}.

(** ** Further definitions *)

(** The messages of [validateProblem]. *)
Definition message_capacity : string := "La capacidad debe ser mayor a cero".
Definition message_empty : string := "Debe haber al menos un item disponible".
Definition message_weight (index : nat) : string :=
  "El peso del item " ++ string_of_nat index ++ " debe ser mayor a cero".
Definition message_profit (index : nat) : string :=
  "El beneficio del item " ++ string_of_nat index ++ " no puede ser negativo".
Definition message_duplicates : string := "Los IDs de los items deben ser únicos".

(** The record that the reconstruction loops push for an item. *)
Definition detail_of (item : CargoItemDto) : SelectedItemDetail :=
  {| sel_id := id item; sel_name := name item;
     sel_weight := weight item; sel_profit := profit item |}.


(** The selected records [ds] are the records of the items at the
    indices [js], one by one. *)
Definition picks (items : list CargoItemDto) (js : list nat)
  (ds : list SelectedItemDetail) : Prop :=
  Forall2 (fun j d => exists item, nth_error items j = Some item /\ d = detail_of item)
    js ds.


(** ** The form schema of OptimizationPage.tsx, one route configuration

    [z.string().min(n)] accepts a string of at least [n] characters,
    [z.number().min(lo)] a number that is at least [lo], and [z.array(e)]
    an array, of any length, whose elements [e] accepts. *)

Record RouteCargoConfig : Type := mkRoute {
  origin : string;
  destination : string;
  route_capacity : Q;
  availableItems : list CargoItemDto
}.

Definition z_string_min (n : nat) (s : string) : bool := (n <=? String.length s)%nat.
Definition z_number_min (lo x : Q) : bool := Qle_bool lo x.
Definition z_array {A : Type} (element : A -> bool) (l : list A) : bool :=
  forallb element l.

Definition availableItem_schema (item : CargoItemDto) : bool :=
  z_string_min 1 (id item) && z_string_min 1 (name item) &&
  z_number_min 0 (weight item) && z_number_min 0 (profit item).

Definition routeCargoConfig_schema (r : RouteCargoConfig) : bool :=
  z_string_min 1 (origin r) && z_string_min 1 (destination r) &&
  z_number_min 1 (route_capacity r) &&
  z_array availableItem_schema (availableItems r).
(** * Properties *)

(** ** Numbers *)

Lemma Qle_bool_true (a b : Q) : Qle_bool a b = true <-> a <= b.
Proof. apply Qle_bool_iff. Qed.

Lemma Qle_bool_false (a b : Q) : Qle_bool a b = false <-> b < a.
Proof.
  split; intro H.
  - apply Qnot_le_lt. intro Hle. apply Qle_bool_iff in Hle. congruence.
  - destruct (Qle_bool a b) eqn:E; [|reflexivity].
    apply Qle_bool_iff in E. lra.
Qed.

Lemma Qlt_bool_true (a b : Q) : Qlt_bool a b = true <-> a < b.
Proof.
  unfold Qlt_bool. rewrite negb_true_iff. apply Qle_bool_false.
Qed.

Lemma Qlt_bool_false (a b : Q) : Qlt_bool a b = false <-> b <= a.
Proof.
  unfold Qlt_bool. rewrite negb_false_iff. apply Qle_bool_true.
Qed.

Lemma Math_max_l (a b : Q) : a <= Math_max a b.
Proof.
  unfold Math_max. destruct (Qle_bool a b) eqn:E.
  - now apply Qle_bool_true. 
  - lra.
Qed.

Lemma Math_max_r (a b : Q) : b <= Math_max a b.
Proof.
  unfold Math_max. destruct (Qle_bool a b) eqn:E.
  - lra.
  - apply Qle_bool_false in E. lra.
Qed.

Lemma Math_max_lub (a b c : Q) : a <= c -> b <= c -> Math_max a b <= c.
Proof. unfold Math_max. now destruct (Qle_bool a b). Qed.

Lemma Math_max_cases (a b : Q) :
  (Math_max a b = a /\ b < a) \/ (Math_max a b = b /\ a <= b).
Proof.
  unfold Math_max. destruct (Qle_bool a b) eqn:E.
  - right. split; [reflexivity | now apply Qle_bool_true].
  - left. split; [reflexivity | now apply Qle_bool_false].
Qed.

Lemma Math_max_mono (a a' b b' : Q) :
  a <= a' -> b <= b' -> Math_max a b <= Math_max a' b'.
Proof.
  intros Ha Hb. apply Math_max_lub.
  - pose proof (Math_max_l a' b'). lra.
  - pose proof (Math_max_r a' b'). lra.
Qed.

Lemma integral_inject_Z (z : Z) : integral (inject_Z z).
Proof. unfold integral. now rewrite Qfloor_Z. Qed.

Lemma Qfloor_add_Z (x : Q) (z : Z) :
  integral x -> Qfloor (x + inject_Z z) = (Qfloor x + z)%Z.
Proof.
  intro H.
  assert (E : x + inject_Z z == inject_Z (Qfloor x + z)).
  { rewrite inject_Z_plus. unfold integral in H. lra. }
  rewrite (Qfloor_comp _ _ E). apply Qfloor_Z.
Qed.

Lemma integral_add_Z (x : Q) (z : Z) : integral x -> integral (x + inject_Z z).
Proof.
  intro H. unfold integral. rewrite (Qfloor_add_Z x z H).
  rewrite inject_Z_plus. unfold integral in H. lra.
Qed.

Lemma integral_sub_Z (x : Q) (z : Z) : integral (x + inject_Z z) -> integral x.
Proof.
  intro H. apply (integral_add_Z _ (- z)) in H.
  unfold integral in *.
  assert (E : x + inject_Z z + inject_Z (- z) == x).
  { rewrite inject_Z_opp. ring. }
  rewrite (Qfloor_comp _ _ E) in H.
  apply Qeq_trans with (2 := H). now symmetry.
Qed.

Lemma Qfloor_pos (x : Q) : 0 < x -> (0 <= Qfloor x)%Z.
Proof.
  intro H. change 0%Z with (Qfloor 0). apply Qfloor_resp_le. lra.
Qed.

Lemma is_array_length_true (len : Q) :
  is_array_length len = true <->
  integral len /\ (0 <= Qfloor len <= max_array_length)%Z.
Proof.
  unfold is_array_length, integral.
  rewrite !andb_true_iff, Qeq_bool_iff, !Z.leb_le. tauto.
Qed.

Lemma is_array_length_succ (x : Q) :
  0 < x -> (is_array_length (x + 1) = true <-> fits_array x).
Proof.
  intro Hx. rewrite is_array_length_true. unfold fits_array. split.
  - intros [H Hb]. pose proof (integral_sub_Z x 1 H) as Hi.
    split; [exact Hi|].
    change 1 with (inject_Z 1) in Hb. rewrite (Qfloor_add_Z x 1 Hi) in Hb. lia.
  - intros [H Hb]. split.
    + now apply (integral_add_Z x 1).
    + change 1 with (inject_Z 1). rewrite (Qfloor_add_Z x 1 H).
      pose proof (Qfloor_pos x Hx). lia.
Qed.

(** ** Results, loops and arrays *)

Lemma replicateM_Ok {A : Type} (n : nat) (a : A) :
  replicateM n (Ok a) = Ok (repeat a n).
Proof. induction n; simpl; [reflexivity | now rewrite IHn]. Qed.

Lemma for_up_inv {S : Type} (P : nat -> S -> Prop) (body : nat -> S -> result S) :
  forall (count lo : nat) (s : S),
    P lo s ->
    (forall i s0, (lo <= i < lo + count)%nat -> P i s0 ->
                  exists s1, body i s0 = Ok s1 /\ P (Datatypes.S i) s1) ->
    exists s', for_up count lo body s = Ok s' /\ P (lo + count)%nat s'.
Proof.
  induction count as [|c IH]; intros lo s H0 Hstep; simpl.
  - exists s. now rewrite Nat.add_0_r.
  - destruct (Hstep lo s ltac:(lia) H0) as (s1 & E1 & H1).
    rewrite E1. simpl.
    destruct (IH (Datatypes.S lo) s1 H1) as (s' & E' & H').
    + intros i s0 Hi. apply Hstep. lia.
    + exists s'. split; [exact E'|]. now replace (lo + Datatypes.S c)%nat with (Datatypes.S lo + c)%nat by lia.
Qed.

(** ** Tables *)

Section Update.
Context {A : Type}.

Lemma length_update (n : nat) (f : A -> A) (l : list A) :
  List.length (update n f l) = List.length l.
Proof.
  revert n. induction l as [|x r IH]; intros [|n]; simpl; auto.
Qed.

Lemma nth_update (n m : nat) (f : A -> A) (l : list A) (d : A) :
  nth m (update n f l) d =
  if (n =? m)%nat && (n <? List.length l)%nat then f (nth n l d) else nth m l d.
Proof.
  revert n m. induction l as [|x r IH]; intros n m; simpl.
  - rewrite andb_false_r. now destruct n, m.
  - destruct n as [|n], m as [|m]; simpl; try reflexivity.
    rewrite IH. reflexivity.
Qed.

Lemma Forall_update (P : A -> Prop) (n : nat) (f : A -> A) (l : list A) :
  Forall P l -> (forall x, P x -> P (f x)) -> Forall P (update n f l).
Proof.
  intros Hl Hf. revert n.
  induction Hl as [|x r Hx Hr IH]; intros [|n]; simpl; constructor; auto.
Qed.
End Update.

Lemma Forall_nth_default {A : Type} (P : A -> Prop) (l : list A) (n : nat) (d : A) :
  Forall P l -> (n < List.length l)%nat -> P (nth n l d).
Proof.
  intros H Hn. rewrite Forall_forall in H. apply H. now apply nth_In.
Qed.

Lemma shape2_row (rows cols : nat) (dp : table2) (i : nat) :
  shape2 rows cols dp -> (i < rows)%nat -> List.length (nth i dp []) = cols.
Proof.
  intros [Hl Hr] Hi.
  apply (Forall_nth_default (fun r => List.length r = cols)); [assumption | lia].
Qed.

Lemma shape3_plane (rows cols deep : nat) (dp : table3) (i : nat) :
  shape3 rows cols deep dp -> (i < rows)%nat -> shape2 cols deep (nth i dp []).
Proof.
  intros [Hl Hr] Hi.
  assert (Hlt : (i < List.length dp)%nat) by lia.
  exact (Forall_nth_default (shape2 cols deep) dp i [] Hr Hlt).
Qed.

Lemma shape2_set2 (rows cols : nat) (dp : table2) (i w : nat) (v : Q) :
  shape2 rows cols dp -> shape2 rows cols (set2 dp i w v).
Proof.
  intros [Hl Hr]. split.
  - unfold set2. now rewrite length_update.
  - unfold set2. apply Forall_update; [assumption|].
    intros r Hlen. now rewrite length_update.
Qed.

Lemma get2_set2 (rows cols : nat) (dp : table2) (i w i' w' : nat) (v : Q) :
  shape2 rows cols dp -> (i < rows)%nat -> (w < cols)%nat ->
  get2 (set2 dp i w v) i' w' =
  if (i =? i')%nat && (w =? w')%nat then v else get2 dp i' w'.
Proof.
  intros Hs Hi Hw. unfold get2, set2.
  rewrite nth_update. destruct Hs as [Hl Hr].
  destruct (Nat.eqb_spec i i') as [->|Hne]; simpl; [|reflexivity].
  assert (Hlt : (i' <? List.length dp)%nat = true) by (apply Nat.ltb_lt; lia).
  rewrite Hlt. rewrite nth_update.
  assert (Hrow : List.length (nth i' dp []) = cols)
    by (apply (shape2_row rows); [split; assumption | assumption]).
  rewrite Hrow.
  assert (Hw' : (w <? cols)%nat = true) by (now apply Nat.ltb_lt).
  rewrite Hw', andb_true_r. reflexivity.
Qed.

Lemma shape3_set3 (rows cols deep : nat) (dp : table3) (i w k : nat) (v : Q) :
  shape3 rows cols deep dp -> shape3 rows cols deep (set3 dp i w k v).
Proof.
  intros [Hl Hr]. split.
  - unfold set3. now rewrite length_update.
  - unfold set3. apply Forall_update; [assumption|].
    intros pl Hpl. exact (shape2_set2 cols deep pl w k v Hpl).
Qed.

Lemma get3_set3 (rows cols deep : nat) (dp : table3) (i w k i' w' k' : nat) (v : Q) :
  shape3 rows cols deep dp -> (i < rows)%nat -> (w < cols)%nat -> (k < deep)%nat ->
  get3 (set3 dp i w k v) i' w' k' =
  if (i =? i')%nat && (w =? w')%nat && (k =? k')%nat then v else get3 dp i' w' k'.
Proof.
  intros Hs Hi Hw Hk. unfold get3, set3.
  rewrite nth_update.
  destruct (Nat.eqb_spec i i') as [->|Hne]; simpl; [|reflexivity].
  assert (Hlt : (i' <? List.length dp)%nat = true)
    by (apply Nat.ltb_lt; destruct Hs; lia).
  rewrite Hlt.
  pose proof (shape3_plane rows cols deep dp i' Hs Hi) as Hpl.
  exact (get2_set2 cols deep (nth i' dp []) w k w' k' v Hpl Hw Hk).
Qed.

Lemma shape2_repeat (rows cols : nat) :
  shape2 rows cols (repeat (repeat 0 cols) rows).
Proof.
  split.
  - apply repeat_length.
  - apply Forall_forall. intros r Hr. apply repeat_spec in Hr. subst.
    apply repeat_length.
Qed.

Lemma shape3_repeat (rows cols deep : nat) :
  shape3 rows cols deep (repeat (repeat (repeat 0 deep) cols) rows).
Proof.
  split.
  - apply repeat_length.
  - apply Forall_forall. intros r Hr. apply repeat_spec in Hr. subst.
    apply shape2_repeat.
Qed.

Lemma nth_repeat_default {A : Type} (a : A) (n m : nat) : nth m (repeat a n) a = a.
Proof.
  revert m. induction n as [|n IH]; intros [|m]; simpl; auto.
Qed.

Lemma get2_repeat (rows cols i w : nat) :
  get2 (repeat (repeat 0 cols) rows) i w = 0.
Proof.
  unfold get2.
  destruct (Nat.lt_ge_cases i rows) as [Hi|Hi].
  - rewrite (nth_indep _ [] (repeat 0 cols)) by now rewrite repeat_length.
    rewrite nth_repeat_default. apply nth_repeat_default.
  - rewrite (nth_overflow (repeat (repeat 0 cols) rows)) by now rewrite repeat_length.
    now destruct w.
Qed.

Lemma get3_repeat (rows cols deep i w k : nat) :
  get3 (repeat (repeat (repeat 0 deep) cols) rows) i w k = 0.
Proof.
  unfold get3.
  destruct (Nat.lt_ge_cases i rows) as [Hi|Hi].
  - rewrite (nth_indep _ [] (repeat (repeat 0 deep) cols))
      by now rewrite repeat_length.
    rewrite nth_repeat_default. apply get2_repeat.
  - rewrite (nth_overflow (repeat (repeat (repeat 0 deep) cols) rows))
      by now rewrite repeat_length.
    destruct w; now destruct k.
Qed.

(** ** Validation *)

Lemma validateItems_Ok (l : list CargoItemDto) (index : nat) :
  validateItems l index = Ok tt <-> Forall item_ok l.
Proof.
  revert index. induction l as [|item rest IH]; intro index; simpl.
  - split; [constructor | reflexivity].
  - destruct (Qle_bool (weight item) 0) eqn:Ew.
    + apply Qle_bool_true in Ew. split; [discriminate|].
      intro H. inversion H as [|? ? [Hw _] _]. lra.
    + apply Qle_bool_false in Ew.
      destruct (Qlt_bool (profit item) 0) eqn:Ep.
      * apply Qlt_bool_true in Ep. split; [discriminate|].
        intro H. inversion H as [|? ? [_ Hp] _]. lra.
      * apply Qlt_bool_false in Ep. rewrite IH. split.
        -- intro H. constructor; [split; assumption | assumption].
        -- intro H. now inversion H.
Qed.

Lemma validateItems_Throw (l : list CargoItemDto) (index : nat) (e : Exception) :
  validateItems l index = Throw e -> is_BadRequest e.
Proof.
  revert index. induction l as [|item rest IH]; intro index; simpl.
  - discriminate.
  - destruct (Qle_bool (weight item) 0).
    + intro H. injection H as <-. eexists. reflexivity.
    + destruct (Qlt_bool (profit item) 0).
      * intro H. injection H as <-. eexists. reflexivity.
      * apply IH.
Qed.

Lemma length_nodup_le (l : list string) :
  (List.length (nodup string_dec l) <= List.length l)%nat.
Proof.
  induction l as [|a l IH]; simpl; [lia|].
  destruct (in_dec string_dec a l); simpl; lia.
Qed.

Lemma Set_of_size (ids : list string) :
  List.length ids = List.length (Set_of ids) <-> NoDup ids.
Proof.
  unfold Set_of. split.
  - induction ids as [|a l IH]; simpl; [constructor|].
    destruct (in_dec string_dec a l) as [Hin|Hnin]; simpl; intro H.
    + pose proof (length_nodup_le l). lia.
    + constructor; [assumption | apply IH; lia].
  - intro H. now rewrite (nodup_fixed_point string_dec H).
Qed.

Lemma validateProblem_Ok (problem : KnapsackProblemDto) :
  validateProblem problem = Ok tt <-> preconditions problem.
Proof.
  unfold validateProblem, preconditions.
  destruct (Qle_bool (capacity problem) 0) eqn:Ec.
  { apply Qle_bool_true in Ec. split; [discriminate | intros [H _]; lra]. }
  apply Qle_bool_false in Ec.
  destruct (Nat.eqb_spec (List.length (items problem)) 0) as [En|En].
  { apply length_zero_iff_nil in En. split; [discriminate|].
    intros (_ & H & _). contradiction. }
  assert (Hne : items problem <> []) by (intro H; apply En; now rewrite H).
  destruct (validateItems (items problem) 0) as [[]|e] eqn:Ev; unfold bind.
  - apply validateItems_Ok in Ev.
    destruct (List.length (map id (items problem))
              =? List.length (Set_of (map id (items problem))))%nat eqn:El;
      unfold negb.
    + apply Nat.eqb_eq in El. apply Set_of_size in El. split; [|reflexivity].
      intros _. repeat split; assumption.
    + apply Nat.eqb_neq in El. split; [discriminate|]. intros (_ & _ & _ & Hnd).
      apply Set_of_size in Hnd. contradiction.
  - split; [discriminate|]. intros (_ & _ & Hf & _).
    apply (validateItems_Ok _ 0%nat) in Hf. congruence.
Qed.

Lemma validateProblem_Throw (problem : KnapsackProblemDto) (e : Exception) :
  validateProblem problem = Throw e -> is_BadRequest e.
Proof.
  unfold validateProblem.
  destruct (Qle_bool (capacity problem) 0).
  { intro H. injection H as <-. eexists. reflexivity. }
  destruct (List.length (items problem) =? 0)%nat.
  { intro H. injection H as <-. eexists. reflexivity. }
  destruct (validateItems (items problem) 0) as [[]|e'] eqn:Ev; unfold bind.
  - destruct (negb _).
    + intro H. injection H as <-. eexists. reflexivity.
    + discriminate.
  - intro H. injection H as <-. now apply validateItems_Throw in Ev.
Qed.

Lemma validateProblem_cases (problem : KnapsackProblemDto) :
  (validateProblem problem = Ok tt /\ preconditions problem) \/
  (exists message, validateProblem problem = Throw (BadRequestException message)
                   /\ ~ preconditions problem).
Proof.
  destruct (validateProblem problem) as [[]|e] eqn:E.
  - left. split; [reflexivity | now apply validateProblem_Ok].
  - right. destruct (validateProblem_Throw _ _ E) as [message ->].
    exists message. split; [reflexivity|].
    intro H. apply validateProblem_Ok in H. congruence.
Qed.

(** ** Filling the table of [solve] *)

Lemma grid_ok_nth (items : list CargoItemDto) (i : nat) (item : CargoItemDto) :
  grid_ok items -> nth_error items i = Some item -> (0 <= Qfloor (weight item))%Z.
Proof.
  intros H E. unfold grid_ok in H. rewrite Forall_forall in H.
  apply H. eapply nth_error_In. exact E.
Qed.

Lemma item_ok_grid_ok (items : list CargoItemDto) :
  Forall item_ok items -> grid_ok items.
Proof.
  intro H. unfold grid_ok. eapply Forall_impl; [|exact H].
  intros item [Hw _]. now apply Qfloor_pos.
Qed.

Lemma nth_error_Some_lt {A : Type} (l : list A) (i : nat) :
  (i < List.length l)%nat -> exists a, nth_error l i = Some a.
Proof.
  intro H. destruct (nth_error l i) eqn:E; [eauto|].
  apply nth_error_None in E. lia.
Qed.

Lemma fill_row2_spec (items : list CargoItemDto) (capacity : Q)
  (rows cols i' : nat) (dp : table2) :
  cols = Z.to_nat (Qfloor capacity + 1) ->
  (S i' < rows)%nat -> (i' < List.length items)%nat ->
  grid_ok items ->
  filled2 items rows cols i' dp ->
  exists dp', fill_row2 items capacity (S i') dp = Ok dp' /\
              filled2 items rows cols (S i') dp'.
Proof.
  intros Hcols Hrow Hlen Hgrid [Hshape Hprev].
  destruct (nth_error_Some_lt items i' Hlen) as [item Eitem].
  pose proof (grid_ok_nth items i' item Hgrid Eitem) as Hwt.
  unfold fill_row2. replace (S i' - 1)%nat with i' by lia. rewrite Eitem.
  cbv zeta. unfold for_le, Math_floor.
  replace (Z.to_nat (Qfloor capacity + 1 - Z.of_nat 0)) with cols
    by (rewrite Hcols; f_equal; lia).
  set (P := fun (w : nat) (t : table2) =>
              shape2 rows cols t /\
              (forall j w', (j <= i')%nat -> (w' < cols)%nat ->
                            get2 t j w' = best items j w') /\
              (forall w', (w' < w)%nat -> get2 t (S i') w' = best items (S i') w')).
  destruct (for_up_inv P
              (fill_cell2 (S i') (Qfloor (weight item)) (profit item)) cols 0 dp)
    as (dp' & Edp' & Hs' & Hp' & Hi').
  - repeat split; [apply Hshape | apply Hshape | exact Hprev | intros; lia].
  - intros w t Hw (Hs & Hp & Hi).
    assert (Hcell : forall v, v = best items (S i') w ->
                              P (S w) (set2 t (S i') w v)).
    { intros v Hv. split; [now apply shape2_set2|]. split.
      - intros j w' Hj Hw'.
        rewrite (get2_set2 rows cols) by (assumption || lia).
        destruct (Nat.eqb_spec (S i') j); [lia|]. simpl. now apply Hp.
      - intros w' Hw'.
        rewrite (get2_set2 rows cols) by (assumption || lia).
        rewrite Nat.eqb_refl. simpl.
        destruct (Nat.eqb_spec w w') as [<-|Hne]; [exact Hv|].
        apply Hi. lia. }
    unfold fill_cell2. replace (S i' - 1)%nat with i' by lia.
    destruct (Qfloor (weight item) <=? Z.of_nat w)%Z eqn:Ele; eexists;
      (split; [reflexivity|]); apply Hcell; simpl; rewrite Eitem; cbv zeta;
      rewrite Ele.
    + apply Z.leb_le in Ele. rewrite !Hp by lia. reflexivity.
    + now rewrite Hp by lia.
  - exists dp'. split; [exact Edp'|]. split; [exact Hs'|].
    intros j w Hj Hw.
    destruct (Nat.eq_dec j (S i')) as [->|Hne].
    + apply Hi'. lia.
    + apply Hp'; lia.
Qed.

Lemma filled2_init (items : list CargoItemDto) (rows cols : nat) :
  filled2 items rows cols 0 (repeat (repeat 0 cols) rows).
Proof.
  split; [apply shape2_repeat|].
  intros j w Hj _. replace j with 0%nat by lia. apply get2_repeat.
Qed.

Lemma fill_table2_spec (items : list CargoItemDto) (capacity : Q) (cols : nat) :
  cols = Z.to_nat (Qfloor capacity + 1) ->
  grid_ok items ->
  let n := List.length items in
  exists dp, for_le 1 (Q_of_nat n) (fill_row2 items capacity)
               (repeat (repeat 0 cols) (S n)) = Ok dp /\
             filled2 items (S n) cols n dp.
Proof.
  intros Hcols Hgrid n. unfold for_le, Q_of_nat. rewrite Qfloor_Z.
  replace (Z.to_nat (Z.of_nat n + 1 - Z.of_nat 1)) with n by lia.
  destruct (for_up_inv (fun i t => filled2 items (S n) cols (i - 1) t)
              (fill_row2 items capacity) n 1 (repeat (repeat 0 cols) (S n)))
    as (dp & Edp & Hdp).
  - apply filled2_init.
  - intros i t Hi Ht. destruct i as [|i']; [lia|].
    replace (S i' - 1)%nat with i' in Ht by lia.
    replace (S (S i') - 1)%nat with (S i') by lia.
    apply fill_row2_spec; try assumption; unfold n in *; lia.
  - exists dp. split; [exact Edp|].
    now replace (1 + n - 1)%nat with n in Hdp by lia.
Qed.

(** ** Filling the table of [solveWithItemLimit] *)

Lemma fill_row3_spec (items : list CargoItemDto) (capacity maxItems : Q)
  (rows cols deep i' : nat) (dp : table3) :
  cols = Z.to_nat (Qfloor capacity + 1) ->
  deep = Z.to_nat (Qfloor maxItems + 1) ->
  (S i' < rows)%nat -> (i' < List.length items)%nat ->
  grid_ok items ->
  filled3 items rows cols deep i' dp ->
  exists dp', fill_row3 items capacity maxItems (S i') dp = Ok dp' /\
              filled3 items rows cols deep (S i') dp'.
Proof.
  intros Hcols Hdeep Hrow Hlen Hgrid [Hshape Hprev].
  destruct (nth_error_Some_lt items i' Hlen) as [item Eitem].
  pose proof (grid_ok_nth items i' item Hgrid Eitem) as Hwt.
  unfold fill_row3. replace (S i' - 1)%nat with i' by lia. rewrite Eitem.
  cbv zeta. unfold for_le, Math_floor.
  replace (Z.to_nat (Qfloor capacity + 1 - Z.of_nat 0)) with cols
    by (rewrite Hcols; f_equal; lia).
  replace (Z.to_nat (Qfloor maxItems + 1 - Z.of_nat 0)) with deep
    by (rewrite Hdeep; f_equal; lia).
  set (body := fill_cell3 (S i') (Qfloor (weight item)) (profit item)).
  set (Prev := fun (t : table3) =>
                 shape3 rows cols deep t /\
                 forall j w' k', (j <= i')%nat -> (w' < cols)%nat -> (k' < deep)%nat ->
                                 get3 t j w' k' = best3 items j w' k').
  set (Pw := fun (w : nat) (t : table3) =>
               Prev t /\
               forall w' k', (w' < w)%nat -> (k' < deep)%nat ->
                             get3 t (S i') w' k' = best3 items (S i') w' k').
  set (Pk := fun (w k : nat) (t : table3) =>
               Pw w t /\
               forall k', (k' < k)%nat ->
                          get3 t (S i') w k' = best3 items (S i') w k').
  assert (Hcell : forall w k t v,
             (w < cols)%nat -> (k < deep)%nat -> Pk w k t ->
             v = best3 items (S i') w k ->
             Pk w (S k) (set3 t (S i') w k v)).
  { intros w k t v Hw Hk (((Hs & Hp) & Hrows) & Hcells) Hv.
    assert (Hget : forall j w' k',
               get3 (set3 t (S i') w k v) j w' k' =
               if (S i' =? j)%nat && (w =? w')%nat && (k =? k')%nat
               then v else get3 t j w' k')
      by (intros; now apply (get3_set3 rows cols deep)).
    split; [split; [split|]|].
    - now apply shape3_set3.
    - intros j w' k' Hj Hw' Hk'. rewrite Hget.
      destruct (Nat.eqb_spec (S i') j); [lia|]. simpl. now apply Hp.
    - intros w' k' Hw' Hk'. rewrite Hget. rewrite Nat.eqb_refl.
      destruct (Nat.eqb_spec w w'); [lia|]. simpl. now apply Hrows.
    - intros k' Hk'. rewrite Hget. rewrite !Nat.eqb_refl. simpl.
      destruct (Nat.eqb_spec k k') as [<-|Hne]; [exact Hv|].
      apply Hcells. lia. }
  destruct (for_up_inv Pw (fun w => for_up deep 0 (body w)) cols 0 dp)
    as (dp' & Edp' & (Hs' & Hp') & Hi').
  - split; [split; [exact Hshape | exact Hprev] | intros; lia].
  - intros w t Hw Ht.
    destruct (for_up_inv (Pk w) (body w) deep 0 t) as (t' & Et' & Hw' & Hk').
    + split; [exact Ht | intros; lia].
    + intros k t0 Hk Ht0.
      pose proof Ht0 as (((Hs0 & Hp0) & _) & _).
      unfold body, fill_cell3. replace (S i' - 1)%nat with i' by lia.
      destruct ((Qfloor (weight item) <=? Z.of_nat w)%Z && (0 <? k)%nat) eqn:Ec;
        eexists; (split; [reflexivity|]); apply Hcell; try lia; try assumption;
        simpl; rewrite Eitem; cbv zeta; rewrite Ec.
      * apply andb_true_iff in Ec. destruct Ec as [Ele Ek].
        apply Z.leb_le in Ele. apply Nat.ltb_lt in Ek.
        rewrite !Hp0 by lia. reflexivity.
      * now rewrite Hp0 by lia.
    + exists t'. split; [exact Et'|]. split; [apply Hw'|].
      intros w' k' Hlt Hk0.
      destruct (Nat.eq_dec w' w) as [->|Hne].
      * apply Hk'. lia.
      * apply Hw'; lia.
  - exists dp'. split; [exact Edp'|]. split; [exact Hs'|].
    intros j w k Hj Hw Hk.
    destruct (Nat.eq_dec j (S i')) as [->|Hne].
    + apply Hi'; lia.
    + apply Hp'; lia.
Qed.

Lemma filled3_init (items : list CargoItemDto) (rows cols deep : nat) :
  filled3 items rows cols deep 0 (repeat (repeat (repeat 0 deep) cols) rows).
Proof.
  split; [apply shape3_repeat|].
  intros j w k Hj _ _. replace j with 0%nat by lia. apply get3_repeat.
Qed.

Lemma fill_table3_spec (items : list CargoItemDto) (capacity maxItems : Q)
  (cols deep n : nat) :
  cols = Z.to_nat (Qfloor capacity + 1) ->
  deep = Z.to_nat (Qfloor maxItems + 1) ->
  (n <= List.length items)%nat ->
  grid_ok items ->
  exists dp, for_le 1 (Q_of_nat n) (fill_row3 items capacity maxItems)
               (repeat (repeat (repeat 0 deep) cols) (S n)) = Ok dp /\
             filled3 items (S n) cols deep n dp.
Proof.
  intros Hcols Hdeep Hn Hgrid. unfold for_le, Q_of_nat. rewrite Qfloor_Z.
  replace (Z.to_nat (Z.of_nat n + 1 - Z.of_nat 1)) with n by lia.
  destruct (for_up_inv (fun i t => filled3 items (S n) cols deep (i - 1) t)
              (fill_row3 items capacity maxItems) n 1
              (repeat (repeat (repeat 0 deep) cols) (S n)))
    as (dp & Edp & Hdp).
  - apply filled3_init.
  - intros i t Hi Ht. destruct i as [|i']; [lia|].
    replace (S i' - 1)%nat with i' in Ht by lia.
    replace (S (S i') - 1)%nat with (S i') by lia.
    apply fill_row3_spec; try assumption; lia.
  - exists dp. split; [exact Edp|].
    now replace (1 + n - 1)%nat with n in Hdp by lia.
Qed.

(** ** Allocation *)

Lemma Array_fill_map_integral {A : Type} (x : Q) (cell : result A) :
  0 < x -> fits_array x ->
  Array_fill_map (x + 1) cell = replicateM (S (index_of x)) cell.
Proof.
  intros Hx Hi. unfold Array_fill_map.
  rewrite (proj2 (is_array_length_succ x Hx) Hi).
  change 1 with (inject_Z 1). rewrite (Qfloor_add_Z x 1 (proj1 Hi)).
  pose proof (Qfloor_pos x Hx). unfold index_of.
  f_equal. lia.
Qed.

Lemma Array_fill_map_fractional {A : Type} (x : Q) (cell : result A) :
  0 < x -> ~ fits_array x -> Array_fill_map (x + 1) cell = Throw RangeError.
Proof.
  intros Hx Hi. unfold Array_fill_map.
  destruct (is_array_length (x + 1)) eqn:E; [|reflexivity].
  apply (is_array_length_succ x Hx) in E. contradiction.
Qed.

Lemma Qfloor_Q_of_nat_succ (n : nat) : Qfloor (Q_of_nat n + 1) = (Z.of_nat n + 1)%Z.
Proof.
  unfold Q_of_nat.
  assert (E : inject_Z (Z.of_nat n) + 1 == inject_Z (Z.of_nat n + 1))
    by (rewrite inject_Z_plus; reflexivity).
  rewrite (Qfloor_comp _ _ E). apply Qfloor_Z.
Qed.

Lemma Array_fill_map_nat {A : Type} (n : nat) (cell : result A) :
  (Z.of_nat n < max_array_length)%Z ->
  Array_fill_map (Q_of_nat n + 1) cell = replicateM (S n) cell.
Proof.
  intro Hn. unfold Array_fill_map.
  pose proof (Qfloor_Q_of_nat_succ n) as Hf.
  assert (Hl : is_array_length (Q_of_nat n + 1) = true).
  { apply is_array_length_true. split.
    - unfold integral. rewrite Hf. unfold Q_of_nat.
      rewrite inject_Z_plus. reflexivity.
    - rewrite Hf. lia. }
  rewrite Hl, Hf. f_equal. lia.
Qed.

Lemma Array_fill_map_nat_large {A : Type} (n : nat) (cell : result A) :
  ~ (Z.of_nat n < max_array_length)%Z ->
  Array_fill_map (Q_of_nat n + 1) cell = Throw RangeError.
Proof.
  intro Hn. unfold Array_fill_map.
  destruct (is_array_length (Q_of_nat n + 1)) eqn:E; [|reflexivity].
  apply is_array_length_true in E. rewrite Qfloor_Q_of_nat_succ in E. lia.
Qed.

Lemma for_le_floor {S : Type} (lo : nat) (hi hi' : Q) (body : nat -> S -> result S)
  (s : S) :
  Qfloor hi = Qfloor hi' -> for_le lo hi body s = for_le lo hi' body s.
Proof. intro H. unfold for_le. now rewrite H. Qed.

(** ** The reconstruction loops return *)

Lemma backtrack2_Ok (dp : table2) (items : list CargoItemDto) (i : nat) :
  (i <= List.length items)%nat ->
  forall st, exists st', backtrack2 dp items i st = Ok st'.
Proof.
  induction i as [|i' IH]; intros Hi st; simpl; [eauto|].
  destruct (0 <? acc_w st)%Z; [|eauto].
  destruct (negb _).
  - destruct (nth_error_Some_lt items i' Hi) as [item ->]. apply IH. lia.
  - apply IH. lia.
Qed.

Lemma backtrack3_Ok (dp : table3) (items : list CargoItemDto) (i : nat) :
  (i <= List.length items)%nat ->
  forall st, exists st', backtrack3 dp items i st = Ok st'.
Proof.
  induction i as [|i' IH]; intros Hi st; simpl; [eauto|].
  destruct ((0 <? acc_w st)%Z && (0 <? acc_k st)%Z); [|eauto].
  destruct (negb _).
  - destruct (nth_error_Some_lt items i' Hi) as [item ->]. apply IH. lia.
  - apply IH. lia.
Qed.

(** ** What [solve] returns *)

Lemma preconditions_grid_ok (problem : KnapsackProblemDto) :
  preconditions problem -> grid_ok (items problem).
Proof. intros (_ & _ & H & _). now apply item_ok_grid_ok. Qed.

Lemma solve_integral (problem : KnapsackProblemDto) :
  preconditions problem -> table_fits problem ->
  let n := List.length (items problem) in
  let cap := index_of (capacity problem) in
  exists dp st,
    filled2 (items problem) (S n) (S cap) n dp /\
    backtrack2 dp (items problem) n (start (capacity problem) 0) = Ok st /\
    solve problem =
    Ok (solution_of (capacity problem) st (best (items problem) n cap) method_solve).
Proof.
  intros Hpre [Hint Hrows] n cap.
  pose proof Hpre as (Hcap & _).
  pose proof (Qfloor_pos _ Hcap) as Hfl.
  assert (Hcols : S cap = Z.to_nat (Qfloor (capacity problem) + 1))
    by (unfold cap, index_of; lia).
  destruct (fill_table2_spec (items problem) (capacity problem) (S cap) Hcols
              (preconditions_grid_ok _ Hpre)) as (dp & Edp & Hdp).
  destruct (backtrack2_Ok dp (items problem) n (le_n _)
              (start (capacity problem) 0)) as (st & Est).
  exists dp, st. split; [exact Hdp|]. split; [exact Est|].
  subst n cap.
  unfold solve. rewrite (proj2 (validateProblem_Ok problem) Hpre).
  unfold bind at 1. cbv zeta.
  rewrite (Array_fill_map_nat _ _ Hrows). unfold Array_fill0.
  rewrite (Array_fill_map_integral _ _ Hcap Hint).
  rewrite !replicateM_Ok. unfold bind at 1.
  rewrite Edp. unfold bind at 1.
  change {| acc_ids := []; acc_items := []; acc_w := Qfloor (capacity problem);
            acc_k := 0; acc_totalWeight := 0 |} with (start (capacity problem) 0).
  rewrite Est. unfold bind.
  fold (index_of (capacity problem)).
  destruct Hdp as [_ Hcells]. rewrite Hcells by lia. reflexivity.
Qed.

Lemma fits_array_dec (x : Q) : {fits_array x} + {~ fits_array x}.
Proof.
  unfold fits_array, integral.
  destruct (Qeq_dec x (inject_Z (Qfloor x))) as [H|H]; [|right; tauto].
  destruct (Z_lt_dec (Qfloor x) max_array_length) as [Hb|Hb];
    [left | right]; tauto.
Qed.

Lemma table_fits_dec (problem : KnapsackProblemDto) :
  {table_fits problem} + {~ table_fits problem}.
Proof.
  unfold table_fits.
  destruct (fits_array_dec (capacity problem)) as [H|H]; [|right; tauto].
  destruct (Z_lt_dec (Z.of_nat (List.length (items problem))) max_array_length)
    as [Hb|Hb]; [left | right]; tauto.
Qed.

Lemma solve_fractional (problem : KnapsackProblemDto) :
  preconditions problem -> ~ table_fits problem ->
  solve problem = Throw RangeError.
Proof.
  intros Hpre Hfit. pose proof Hpre as (Hcap & _).
  unfold solve. rewrite (proj2 (validateProblem_Ok problem) Hpre).
  unfold bind at 1. cbv zeta.
  destruct (Z_lt_dec (Z.of_nat (List.length (items problem))) max_array_length)
    as [Hrows|Hrows].
  - rewrite (Array_fill_map_nat _ _ Hrows). unfold Array_fill0.
    rewrite (Array_fill_map_fractional _ _ Hcap); [reflexivity|].
    unfold table_fits in Hfit. tauto.
  - now rewrite (Array_fill_map_nat_large _ _ Hrows).
Qed.

Lemma solve_invalid (problem : KnapsackProblemDto) (message : string) :
  validateProblem problem = Throw (BadRequestException message) ->
  solve problem = Throw (BadRequestException message).
Proof. intro H. unfold solve. now rewrite H. Qed.

(** ** What [solveWithItemLimit] returns *)


Lemma Q_of_nat_pos (n : nat) : (0 < n)%nat -> 0 < Q_of_nat n.
Proof.
  intro H. unfold Q_of_nat. change 0 with (inject_Z 0).
  rewrite <- Zlt_Qlt. lia.
Qed.

Lemma Math_min_cases (a b : Q) :
  (Math_min a b = a /\ a <= b) \/ (Math_min a b = b /\ b < a).
Proof.
  unfold Math_min. destruct (Qle_bool a b) eqn:E.
  - left. split; [reflexivity | now apply Qle_bool_true].
  - right. split; [reflexivity | now apply Qle_bool_false].
Qed.

Lemma index_of_Math_min (len : nat) (maxItems : Q) :
  0 < maxItems ->
  index_of (Math_min (Q_of_nat len) maxItems) = Nat.min len (index_of maxItems).
Proof.
  intro Hm. pose proof (Qfloor_pos _ Hm) as Hfl. unfold index_of.
  destruct (Math_min_cases (Q_of_nat len) maxItems) as [[-> H]|[-> H]].
  - apply Qfloor_resp_le in H. unfold Q_of_nat in *. rewrite Qfloor_Z in *. lia.
  - apply Qlt_le_weak, Qfloor_resp_le in H.
    unfold Q_of_nat in *. rewrite Qfloor_Z in *. lia.
Qed.

Lemma fits_array_Math_min (len : nat) (maxItems : Q) :
  fits_array maxItems -> fits_array (Math_min (Q_of_nat len) maxItems).
Proof.
  intros [H Hb]. destruct (Math_min_cases (Q_of_nat len) maxItems) as [[-> Hle]|[-> _]].
  - split; [apply integral_inject_Z|].
    apply Qfloor_resp_le in Hle. lia.
  - split; assumption.
Qed.

Lemma Math_min_pos (a b : Q) : 0 < a -> 0 < b -> 0 < Math_min a b.
Proof.
  intros Ha Hb. now destruct (Math_min_cases a b) as [[-> _]|[-> _]].
Qed.

Lemma preconditions_length (problem : KnapsackProblemDto) :
  preconditions problem -> (0 < List.length (items problem))%nat.
Proof.
  intros (_ & H & _). destruct (items problem); [contradiction | simpl; lia].
Qed.

Lemma solveWithItemLimit_integral (problem : KnapsackProblemDto) (maxItems : Q) :
  preconditions problem -> 0 < maxItems ->
  fits_array (capacity problem) -> fits_array maxItems ->
  let m := index_of maxItems in
  let n := Nat.min (List.length (items problem)) m in
  let cap := index_of (capacity problem) in
  exists dp st,
    filled3 (items problem) (S n) (S cap) (S m) n dp /\
    backtrack3 dp (items problem) n (start (capacity problem) maxItems) = Ok st /\
    solveWithItemLimit problem maxItems =
    Ok (solution_of (capacity problem) st (best3 (items problem) n cap m)
          (method_limit maxItems)).
Proof.
  intros Hpre Hm Hint Hintm m n cap.
  pose proof Hpre as (Hcap & _).
  pose proof (Qfloor_pos _ Hcap) as Hfl.
  pose proof (Qfloor_pos _ Hm) as Hflm.
  pose proof (preconditions_length _ Hpre) as Hlen.
  assert (Hcols : S cap = Z.to_nat (Qfloor (capacity problem) + 1))
    by (unfold cap, index_of; lia).
  assert (Hdeep : S m = Z.to_nat (Qfloor maxItems + 1))
    by (unfold m, index_of; lia).
  assert (Hn : (n <= List.length (items problem))%nat) by (unfold n; lia).
  destruct (fill_table3_spec (items problem) (capacity problem) maxItems
              (S cap) (S m) n Hcols Hdeep Hn (preconditions_grid_ok _ Hpre))
    as (dp & Edp & Hdp).
  destruct (backtrack3_Ok dp (items problem) n Hn
              (start (capacity problem) maxItems)) as (st & Est).
  exists dp, st. split; [exact Hdp|]. split; [exact Est|].
  unfold solveWithItemLimit. rewrite (proj2 (validateProblem_Ok problem) Hpre).
  unfold bind at 1.
  rewrite (proj2 (Qle_bool_false maxItems 0) Hm). cbv zeta.
  set (nQ := Math_min (Q_of_nat (List.length (items problem))) maxItems).
  assert (HnQ : index_of nQ = n) by (apply index_of_Math_min; assumption).
  assert (HnQpos : 0 < nQ)
    by (apply Math_min_pos; [now apply Q_of_nat_pos | assumption]).
  rewrite (Array_fill_map_integral nQ _ HnQpos (fits_array_Math_min _ _ Hintm)).
  rewrite (Array_fill_map_integral _ _ Hcap Hint).
  unfold Array_fill0. rewrite (Array_fill_map_integral _ _ Hm Hintm).
  rewrite !replicateM_Ok. unfold bind at 1.
  rewrite HnQ. fold m cap.
  rewrite (for_le_floor 1 nQ (Q_of_nat n)).
  2:{ unfold Q_of_nat. rewrite Qfloor_Z. unfold index_of in HnQ.
      pose proof (Qfloor_pos _ HnQpos). lia. }
  rewrite Edp. unfold bind at 1.
  fold (index_of nQ). rewrite HnQ.
  change {| acc_ids := []; acc_items := []; acc_w := Qfloor (capacity problem);
            acc_k := Qfloor maxItems; acc_totalWeight := 0 |}
    with (start (capacity problem) maxItems).
  rewrite Est. unfold bind.
  fold (index_of (capacity problem)) (index_of maxItems). fold m cap.
  destruct Hdp as [_ Hcells]. rewrite Hcells by lia. reflexivity.
Qed.

Lemma solveWithItemLimit_fractional (problem : KnapsackProblemDto) (maxItems : Q) :
  preconditions problem -> 0 < maxItems ->
  ~ (fits_array (capacity problem) /\ fits_array maxItems) ->
  solveWithItemLimit problem maxItems = Throw RangeError.
Proof.
  intros Hpre Hm Hnot.
  pose proof Hpre as (Hcap & _).
  pose proof (preconditions_length _ Hpre) as Hlen.
  unfold solveWithItemLimit. rewrite (proj2 (validateProblem_Ok problem) Hpre).
  unfold bind at 1.
  rewrite (proj2 (Qle_bool_false maxItems 0) Hm). cbv zeta.
  set (nQ := Math_min (Q_of_nat (List.length (items problem))) maxItems).
  assert (HnQpos : 0 < nQ)
    by (apply Math_min_pos; [now apply Q_of_nat_pos | assumption]).
  assert (Hinner : Array_fill_map (capacity problem + 1) (Array_fill0 (maxItems + 1))
                   = Throw RangeError).
  { destruct (fits_array_dec (capacity problem)) as [Hc|Hc].
    - rewrite (Array_fill_map_integral _ _ Hcap Hc).
      destruct (fits_array_dec maxItems) as [Hi|Hi]; [tauto|].
      unfold Array_fill0. rewrite (Array_fill_map_fractional _ _ Hm Hi).
      reflexivity.
    - now apply Array_fill_map_fractional. }
  rewrite Hinner.
  destruct (fits_array_dec nQ) as [Hi|Hi].
  - rewrite (Array_fill_map_integral nQ _ HnQpos Hi). reflexivity.
  - rewrite (Array_fill_map_fractional nQ _ HnQpos Hi). reflexivity.
Qed.

Lemma solveWithItemLimit_invalid (problem : KnapsackProblemDto) (maxItems : Q)
  (message : string) :
  validateProblem problem = Throw (BadRequestException message) ->
  solveWithItemLimit problem maxItems = Throw (BadRequestException message).
Proof. intro H. unfold solveWithItemLimit. now rewrite H. Qed.

Lemma solveWithItemLimit_limit (problem : KnapsackProblemDto) (maxItems : Q) :
  preconditions problem -> maxItems <= 0 ->
  solveWithItemLimit problem maxItems =
  Throw (BadRequestException "El límite de items debe ser mayor a cero").
Proof.
  intros Hpre Hm. unfold solveWithItemLimit.
  rewrite (proj2 (validateProblem_Ok problem) Hpre). unfold bind at 1.
  now rewrite (proj2 (Qle_bool_true maxItems 0) Hm).
Qed.

(** ** The recurrence is the optimum over the subsets *)




Lemma best_S (items : list CargoItemDto) (i' w : nat) :
  best items (S i') w =
  match nth_error items i' with
  | Some item =>
      if (Qfloor (weight item) <=? Z.of_nat w)%Z then
        Math_max (best items i' w)
                 (best items i' (Z.to_nat (Z.of_nat w - Qfloor (weight item)))
                  + profit item)
      else best items i' w
  | None => best items i' w
  end.
Proof. reflexivity. Qed.


Lemma table_fits_shrink (problem problem' : KnapsackProblemDto) :
  capacity problem' = capacity problem ->
  (List.length (items problem') <= List.length (items problem))%nat ->
  table_fits problem -> table_fits problem'.
Proof.
  intros Hc Hl [Hi Hn]. split; [now rewrite Hc | lia].
Qed.

(** ** When the solvers return, and when they report a validation error *)

Lemma solve_returns (problem : KnapsackProblemDto) :
  preconditions problem -> table_fits problem ->
  exists solution, solve problem = Ok solution.
Proof.
  intros Hpre Hint.
  destruct (solve_integral problem Hpre Hint) as (dp & st & _ & _ & E).
  eexists. exact E.
Qed.

Lemma solveWithItemLimit_returns (problem : KnapsackProblemDto) (maxItems : Q) :
  preconditions problem -> 0 < maxItems ->
  fits_array (capacity problem) -> fits_array maxItems ->
  exists solution, solveWithItemLimit problem maxItems = Ok solution.
Proof.
  intros Hpre Hm Hint Hintm.
  destruct (solveWithItemLimit_integral problem maxItems Hpre Hm Hint Hintm)
    as (dp & st & _ & _ & E).
  eexists. exact E.
Qed.

Lemma solve_BadRequest_iff (problem : KnapsackProblemDto) :
  (exists message, solve problem = Throw (BadRequestException message)) <->
  ~ preconditions problem.
Proof.
  split.
  - intros [message E] Hpre.
    destruct (table_fits_dec problem) as [Hi|Hi].
    + destruct (solve_returns problem Hpre Hi) as [s Es]. congruence.
    + rewrite (solve_fractional problem Hpre Hi) in E. discriminate.
  - intro Hpre.
    destruct (validateProblem_cases problem) as [[_ H]|(message & E & _)];
      [contradiction|].
    exists message. now apply solve_invalid.
Qed.

Lemma solveWithItemLimit_BadRequest_iff (problem : KnapsackProblemDto) (maxItems : Q) :
  (exists message,
      solveWithItemLimit problem maxItems = Throw (BadRequestException message)) <->
  ~ preconditions problem \/ maxItems <= 0.
Proof.
  split.
  - intros [message E].
    destruct (validateProblem_cases problem) as [[_ Hpre]|(_ & _ & Hpre)];
      [|now left].
    destruct (Qlt_le_dec 0 maxItems) as [Hm|Hm]; [|now right].
    exfalso.
    destruct (fits_array_dec (capacity problem)) as [Hi|Hi];
      [destruct (fits_array_dec maxItems) as [Hi'|Hi']|].
    + destruct (solveWithItemLimit_returns problem maxItems Hpre Hm Hi Hi')
        as [s Es].
      congruence.
    + rewrite (solveWithItemLimit_fractional problem maxItems Hpre Hm) in E
        by tauto.
      discriminate.
    + rewrite (solveWithItemLimit_fractional problem maxItems Hpre Hm) in E
        by tauto.
      discriminate.
  - intros H.
    destruct (validateProblem_cases problem) as [[_ Hpre]|(message & E & _)].
    + destruct H as [H|H]; [contradiction|].
      eexists. now apply solveWithItemLimit_limit.
    + exists message. now apply solveWithItemLimit_invalid.
Qed.

(** A validation error is what [solve] throws exactly when a
    precondition is violated, and what [solveWithItemLimit] throws
    exactly when a precondition is violated or [maxItems <= 0]; and an
    error of [validateProblem] is the outcome of both solvers, whatever
    the rest of the input is: nothing is computed before it. *)
Theorem validation_errors_iff (problem : KnapsackProblemDto) (maxItems : Q) :
  ((exists message, solve problem = Throw (BadRequestException message)) <->
   ~ preconditions problem) /\
  ((exists message,
       solveWithItemLimit problem maxItems = Throw (BadRequestException message)) <->
   ~ preconditions problem \/ maxItems <= 0) /\
  (forall e, validateProblem problem = Throw e ->
             solve problem = Throw e /\ solveWithItemLimit problem maxItems = Throw e).
Proof.
  split; [apply solve_BadRequest_iff|].
  split; [apply solveWithItemLimit_BadRequest_iff|].
  intros e E. unfold solve, solveWithItemLimit. rewrite E. split; reflexivity.
Qed.

Lemma validation_errors_iff_witness :
  (exists message,
      solve (mkProblem 0 scenario_E_items) = Throw (BadRequestException message)) /\
  (exists message,
      solveWithItemLimit example_problem 0 = Throw (BadRequestException message)).
Proof.
  split.
  - apply (proj1 (validation_errors_iff (mkProblem 0 scenario_E_items) 2)).
    intros [H _]. discriminate H.
  - apply (proj1 (proj2 (validation_errors_iff example_problem 0))).
    right. discriminate.
Defined.

(** ** A capacity that is not an integer (C1, C4) *)

(** C4 at [fractional_problem].  A capacity of 2.5 with one valid item
    passes [validateProblem]: every precondition is met.  Both solvers
    then throw [RangeError] from [Array(capacity + 1)], which is not a
    validation error, so a solve on an input that meets the preconditions
    does not succeed. *)
Theorem validated_fractional_capacity_throws :
  validateProblem fractional_problem = Ok tt /\
  preconditions fractional_problem /\
  solve fractional_problem = Throw RangeError /\
  solveWithItemLimit fractional_problem 1 = Throw RangeError /\
  ~ is_BadRequest RangeError.
Proof.
  assert (Hv : validateProblem fractional_problem = Ok tt) by reflexivity.
  split; [exact Hv|]. split; [now apply validateProblem_Ok|].
  split; [vm_compute; reflexivity|]. split; [vm_compute; reflexivity|].
  intros [message H]. discriminate H.
Qed.

(** C1 at [fractional_problem].  The input meets the preconditions; the
    recurrence on the truncated capacity gives [best[1][2] = 100], since
    the item of weight 1 and profit 100 fits; [solve] returns no
    [totalProfit] at all: it throws [RangeError]. *)
Theorem solve_fractional_capacity_no_totalProfit :
  preconditions fractional_problem /\
  best (items fractional_problem) (List.length (items fractional_problem))
       (index_of (capacity fractional_problem)) == 100 /\
  solve fractional_problem = Throw RangeError /\
  ~ (exists solution,
        solve fractional_problem = Ok solution /\ totalProfit solution == 100).
Proof.
  split; [apply validateProblem_Ok; reflexivity|].
  split; [reflexivity|].
  assert (E : solve fractional_problem = Throw RangeError)
    by (vm_compute; reflexivity).
  split; [exact E|].
  intros (s & Es & _). rewrite E in Es. discriminate Es.
Qed.

(** ** The exact weight of the selection (C2) *)

(** C2 at [overload_problem]: the input meets the preconditions, the
    only item weighs 1.9 and is selected on a capacity of 1, so the
    reported [totalWeight] is above the capacity and the reported
    [remainingCapacity] is negative. *)
Theorem solve_overloads_capacity :
  preconditions overload_problem /\
  exists solution,
    solve overload_problem = Ok solution /\
    selectedItemIds solution = ["1"%string] /\
    totalWeight solution == 19 # 10 /\
    capacity overload_problem < totalWeight solution /\
    remainingCapacity solution < 0.
Proof.
  split; [apply validateProblem_Ok; reflexivity|].
  eexists. split; [vm_compute; reflexivity|].
  repeat split.
Qed.

(** ** The profit of the selection (C3) *)

(** C3 at [light_item_problem]: the input meets the preconditions, the
    reported [totalProfit] is 15 and the only selected item is the
    second one, of profit 10: the loop stops at [w = 0] before it
    reaches the first item, whose grid weight is 0. *)
Theorem solve_profit_not_accounted :
  preconditions light_item_problem /\
  exists solution,
    solve light_item_problem = Ok solution /\
    selectedItemIds solution = ["2"%string] /\
    totalProfit solution == 15 /\
    sum_profit (selectedItems solution) == 10.
Proof.
  split; [apply validateProblem_Ok; reflexivity|].
  eexists. split; [vm_compute; reflexivity|].
  repeat split.
Qed.

(** ** The bounded variant against [solve] on the prefix (C5) *)



Lemma best_agree (items items' : list CargoItemDto) :
  forall i, (forall j, (j < i)%nat -> nth_error items j = nth_error items' j) ->
            forall w, best items i w = best items' i w.
Proof.
  induction i as [|i' IH]; intros H w; [reflexivity|].
  rewrite !best_S, <- (H i') by lia.
  assert (IH' : forall w0, best items i' w0 = best items' i' w0)
    by (apply IH; intros; apply H; lia).
  destruct (nth_error items i') as [item|]; now rewrite !IH'.
Qed.




Lemma solve_Ok_inv (problem : KnapsackProblemDto) (solution : KnapsackSolutionDto) :
  solve problem = Ok solution ->
  preconditions problem /\ table_fits problem.
Proof.
  intro E.
  destruct (validateProblem_cases problem) as [[_ Hpre]|(message & Ev & _)].
  2:{ rewrite (solve_invalid _ _ Ev) in E. discriminate. }
  destruct (table_fits_dec problem) as [Hi|Hi]; [tauto|].
  rewrite (solve_fractional problem Hpre Hi) in E. discriminate.
Qed.









(** ** Only the prefix counts (C6) *)






(** C6 at capacity 10.5, [maxItems = 1] and the items (weight 10,
    profit 100), (weight 5, profit 80).  The capacity is at least 10 and
    the input meets the preconditions; [solveWithItemLimit] selects no
    item and reports no [totalProfit]: it throws [RangeError] from
    [Array(capacity + 1)]. *)
Theorem scenario_E_fractional_capacity_throws :
  10 <= 21 # 2 /\
  validateProblem (mkProblem (21 # 2) scenario_E_items) = Ok tt /\
  solveWithItemLimit (mkProblem (21 # 2) scenario_E_items) 1 = Throw RangeError /\
  ~ (exists solution,
        solveWithItemLimit (mkProblem (21 # 2) scenario_E_items) 1 = Ok solution /\
        selectedItemIds solution = ["1"%string] /\
        totalProfit solution == 100).
Proof.
  assert (E : solveWithItemLimit (mkProblem (21 # 2) scenario_E_items) 1
              = Throw RangeError) by (vm_compute; reflexivity).
  split; [discriminate|]. split; [reflexivity|]. split; [exact E|].
  intros (s & Es & _). rewrite E in Es. discriminate Es.
Qed.

(** ** Monotonicity in the profits (C7) *)

Lemma best_mono (items items' : list CargoItemDto) :
  forall i,
    (forall j, (j < i)%nat ->
               match nth_error items j, nth_error items' j with
               | Some a, Some b => weight a = weight b /\ profit a <= profit b
               | None, None => True
               | _, _ => False
               end) ->
    forall w, best items i w <= best items' i w.
Proof.
  induction i as [|i' IH]; intros H w; [simpl; lra|].
  assert (IH' : forall w0, best items i' w0 <= best items' i' w0)
    by (apply IH; intros; apply H; lia).
  rewrite !best_S. specialize (H i' ltac:(lia)).
  destruct (nth_error items i') as [a|], (nth_error items' i') as [b|];
    try contradiction; [|apply IH'].
  destruct H as [Hw Hp]. rewrite <- Hw.
  destruct (Qfloor (weight a) <=? Z.of_nat w)%Z; [|apply IH'].
  apply Math_max_mono; [apply IH'|].
  pose proof (IH' (Z.to_nat (Z.of_nat w - Qfloor (weight a)))). lra.
Qed.

Lemma nth_error_replace {A : Type} (l1 l2 : list A) (x y : A) (j : nat) :
  (j = List.length l1 /\
   nth_error (l1 ++ x :: l2) j = Some x /\ nth_error (l1 ++ y :: l2) j = Some y) \/
  (j <> List.length l1 /\
   nth_error (l1 ++ x :: l2) j = nth_error (l1 ++ y :: l2) j).
Proof.
  destruct (Nat.lt_trichotomy j (List.length l1)) as [H|[H|H]].
  - right. split; [lia|]. now rewrite !nth_error_app1.
  - left. subst j. split; [reflexivity|].
    rewrite !nth_error_app2, Nat.sub_diag by lia. split; reflexivity.
  - right. split; [lia|]. rewrite !nth_error_app2 by lia.
    destruct (j - List.length l1)%nat eqn:E; [lia | reflexivity].
Qed.

Lemma preconditions_with_profit (c : Q) (l1 l2 : list CargoItemDto)
  (item : CargoItemDto) (profit' : Q) :
  preconditions (mkProblem c (l1 ++ item :: l2)) -> profit item <= profit' ->
  preconditions (mkProblem c (l1 ++ with_profit item profit' :: l2)).
Proof.
  intros (Hc & _ & Hok & Hnd) Hp. simpl in *.
  repeat split; simpl.
  - exact Hc.
  - destruct l1; discriminate.
  - apply Forall_app in Hok. destruct Hok as [H1 H2].
    apply Forall_app. split; [exact H1|].
    inversion H2 as [|? ? [Hw Hp0] H2']. subst.
    constructor; [|exact H2']. split; simpl; [exact Hw | lra].
  - rewrite map_app in *. exact Hnd.
Qed.

(** C7.  On an input that meets the preconditions, raising the profit of
    one item and leaving the capacity and the other items as they are
    never lowers the [totalProfit] that [solve] returns: if [solve]
    returns a solution before, it returns one after, of at least that
    profit. *)
Theorem solve_monotone_in_profit (c : Q) (l1 l2 : list CargoItemDto)
  (item : CargoItemDto) (profit' : Q) (solution : KnapsackSolutionDto) :
  preconditions (mkProblem c (l1 ++ item :: l2)) ->
  profit item <= profit' ->
  solve (mkProblem c (l1 ++ item :: l2)) = Ok solution ->
  exists solution',
    solve (mkProblem c (l1 ++ with_profit item profit' :: l2)) = Ok solution' /\
    totalProfit solution <= totalProfit solution'.
Proof.
  intros Hpre Hp E.
  destruct (solve_Ok_inv _ _ E) as [_ Hint].
  destruct (solve_integral _ Hpre Hint) as (dp & st & _ & _ & E1).
  rewrite E1 in E. injection E as <-.
  pose proof (preconditions_with_profit c l1 l2 item profit' Hpre Hp) as Hpre'.
  assert (Hint' : table_fits (mkProblem c (l1 ++ with_profit item profit' :: l2))).
  { apply (table_fits_shrink (mkProblem c (l1 ++ item :: l2))); [reflexivity| |exact Hint].
    cbn [items]. rewrite !length_app. cbn [List.length]. lia. }
  destruct (solve_integral _ Hpre' Hint') as (dp' & st' & _ & _ & E2).
  eexists. split; [exact E2|].
  unfold solution_of. cbn [totalProfit items capacity].
  rewrite !length_app. cbn [List.length].
  apply best_mono. intros j _.
  destruct (nth_error_replace l1 l2 item (with_profit item profit') j)
    as [(_ & -> & ->)|(_ & ->)].
  - split; [reflexivity | exact Hp].
  - destruct (nth_error (l1 ++ with_profit item profit' :: l2) j);
      [split; [reflexivity | lra] | exact I].
Qed.

Lemma solve_monotone_in_profit_witness :
  preconditions (mkProblem 50 ([mkItem "1" "A" 10 100] ++ mkItem "2" "B" 20 150 :: [])) /\
  profit (mkItem "2" "B" 20 150) <= 200 /\
  exists solution solution',
    solve (mkProblem 50 ([mkItem "1" "A" 10 100] ++ mkItem "2" "B" 20 150 :: []))
    = Ok solution /\
    solve (mkProblem 50 ([mkItem "1" "A" 10 100]
                           ++ with_profit (mkItem "2" "B" 20 150) 200 :: []))
    = Ok solution' /\
    totalProfit solution <= totalProfit solution'.
Proof.
  assert (Hpre : preconditions
                   (mkProblem 50 ([mkItem "1" "A" 10 100]
                                    ++ mkItem "2" "B" 20 150 :: [])))
    by (apply validateProblem_Ok; reflexivity).
  assert (Hp : profit (mkItem "2" "B" 20 150) <= 200) by discriminate.
  split; [exact Hpre|]. split; [exact Hp|].
  eexists.
  destruct (solve_monotone_in_profit 50 [mkItem "1" "A" 10 100] []
              (mkItem "2" "B" 20 150) 200 _ Hpre Hp ltac:(vm_compute; reflexivity))
    as (s' & E' & Hle).
  exists s'. split; [vm_compute; reflexivity|]. split; [exact E' | exact Hle].
Defined.

(** ** The efficiency view (C8) *)

Section Sorting.
Context {A : Type}.
Variable cmp : A -> A -> Q.
Hypothesis cmp_total : forall a b, 0 < cmp a b -> cmp b a <= 0.
Hypothesis cmp_trans : forall a b c, cmp a b <= 0 -> cmp b c <= 0 -> cmp a c <= 0.




End Sorting.



(** ** Several scenarios (C10) *)

Lemma Array_map_Ok {A B : Type} (f : A -> result B) (l : list A) (ys : list B) :
  Array_map f l = Ok ys <-> Forall2 (fun x y => f x = Ok y) l ys.
Proof.
  revert ys. induction l as [|x rest IH]; intro ys; simpl.
  - split.
    + intro H. injection H as <-. constructor.
    + intro H. inversion H. reflexivity.
  - destruct (f x) as [y|e] eqn:Ex; simpl.
    + destruct (Array_map f rest) as [ys'|e'] eqn:Er; simpl.
      * split.
        -- intro H. injection H as <-. constructor; [exact Ex | now apply IH].
        -- intro H. inversion H as [|? y0 ? ys0 Hy Hys]. subst.
           apply IH in Hys. congruence.
      * split; [discriminate|].
        intro H. inversion H as [|? y0 ? ys0 Hy Hys]. subst.
        apply IH in Hys. discriminate.
    + split; [discriminate|].
      intro H. inversion H. congruence.
Qed.

Lemma Array_map_Throw {A B : Type} (f : A -> result B) (l : list A) (e : Exception) :
  Array_map f l = Throw e <->
  exists before x after,
    l = before ++ x :: after /\
    Forall (fun a => exists y, f a = Ok y) before /\
    f x = Throw e.
Proof.
  induction l as [|x rest IH]; simpl.
  - split; [discriminate|]. intros (before & y & after & H & _).
    destruct before; discriminate.
  - destruct (f x) as [y|e'] eqn:Ex; simpl.
    + destruct (Array_map f rest) as [ys'|e''] eqn:Er; simpl.
      * split; [discriminate|].
        intros ([|b before] & z & after & Hl & Hb & Hz); simpl in Hl;
          injection Hl as -> ->; [congruence|].
        inversion Hb; subst.
        assert (Ok ys' = Throw e) as Habs; [|discriminate].
        apply IH. eauto 6.
      * split.
        -- intro H. injection H as ->.
           destruct (proj1 IH eq_refl) as (before & z & after & -> & Hb & Hz).
           exists (x :: before), z, after. repeat split; eauto.
        -- intros ([|b before] & z & after & Hl & Hb & Hz); simpl in Hl;
             injection Hl as -> ->; [congruence|].
           inversion Hb; subst.
           apply IH. eauto 6.
    + split.
      * intro H. injection H as ->. exists [], x, rest. repeat split; auto.
      * intros ([|b before] & z & after & Hl & Hb & Hz); simpl in Hl;
          injection Hl as -> ->; [congruence|].
        inversion Hb as [|? ? [y Hy] ?]. congruence.
Qed.

(** [optimizeMultipleScenarios] is [solve] mapped over the list: it
    returns a list of solutions exactly when [solve] returns on every
    problem, and the list is then the solutions in input order; and it
    throws exactly what [solve] throws on the first problem on which
    [solve] does not return, whatever comes after that problem. *)
Theorem optimizeMultipleScenarios_first_failure (problems : list KnapsackProblemDto) :
  (forall solutions,
      optimizeMultipleScenarios problems = Ok solutions <->
      Forall2 (fun problem solution => solve problem = Ok solution) problems solutions) /\
  (forall e,
      optimizeMultipleScenarios problems = Throw e <->
      exists before problem after,
        problems = before ++ problem :: after /\
        Forall (fun p => exists solution, solve p = Ok solution) before /\
        solve problem = Throw e).
Proof.
  unfold optimizeMultipleScenarios. split.
  - intro solutions. apply Array_map_Ok.
  - intro e. apply Array_map_Throw.
Qed.

Lemma optimizeMultipleScenarios_first_failure_witness :
  optimizeMultipleScenarios [example_problem; mkProblem 0 scenario_E_items; fractional_problem]
  = Throw (BadRequestException message_capacity).
Proof.
  apply (proj2 (optimizeMultipleScenarios_first_failure
                  [example_problem; mkProblem 0 scenario_E_items; fractional_problem])).
  exists [example_problem], (mkProblem 0 scenario_E_items), [fractional_problem].
  split; [reflexivity|]. split.
  - constructor; [|constructor]. eexists. vm_compute. reflexivity.
  - reflexivity.
Defined.

(** C10 at the list of [fractional_problem] and a problem of capacity 0.
    The second problem violates a precondition and its validation error
    is the capacity message; the first meets the preconditions.  The
    call does not fail with a validation error: [solve] throws
    [RangeError] on the first problem, and that is what the call
    throws. *)
Theorem batch_fractional_capacity_throws :
  preconditions fractional_problem /\
  ~ preconditions (mkProblem 0 scenario_E_items) /\
  validateProblem (mkProblem 0 scenario_E_items)
  = Throw (BadRequestException message_capacity) /\
  optimizeMultipleScenarios [fractional_problem; mkProblem 0 scenario_E_items]
  = Throw RangeError /\
  ~ is_BadRequest RangeError.
Proof.
  split; [apply validateProblem_Ok; reflexivity|].
  split; [intros [H _]; discriminate H|].
  split; [reflexivity|].
  split; [vm_compute; reflexivity|].
  intros [message H]. discriminate H.
Qed.

(** ** What the reconstruction accounts for *)

Lemma sum_profit_app (l : list SelectedItemDetail) (d : SelectedItemDetail) :
  sum_profit (l ++ [d]) == sum_profit l + sel_profit d.
Proof.
  induction l as [|x l IH]; simpl; [lra|]. rewrite IH. lra.
Qed.

Lemma sum_weight_app (l : list SelectedItemDetail) (d : SelectedItemDetail) :
  sum_weight (l ++ [d]) == sum_weight l + sel_weight d.
Proof.
  induction l as [|x l IH]; simpl; [lra|]. rewrite IH. lra.
Qed.

Lemma sum_grid_weight_app (l : list SelectedItemDetail) (d : SelectedItemDetail) :
  sum_grid_weight (l ++ [d]) = (sum_grid_weight l + Qfloor (sel_weight d))%Z.
Proof.
  induction l as [|x l IH]; simpl; [lia|]. rewrite IH. lia.
Qed.

Lemma backtrack2_S (dp : table2) (items : list CargoItemDto) (i' : nat) (st : Selection) :
  backtrack2 dp items (S i') st =
  if (0 <? acc_w st)%Z then
    if negb (Qeq_bool (get2 dp (S i') (Z.to_nat (acc_w st)))
               (get2 dp i' (Z.to_nat (acc_w st)))) then
      match nth_error items i' with
      | None => Throw TypeError
      | Some item => backtrack2 dp items i' (select_item item 0 st)
      end
    else backtrack2 dp items i' st
  else Ok st.
Proof. reflexivity. Qed.

Lemma backtrack2_accounts (dp : table2) (items : list CargoItemDto) (rows cols n : nat) :
  filled2 items rows cols n dp -> grid_ok items ->
  forall i st st',
    (i <= n)%nat -> (0 <= acc_w st < Z.of_nat cols)%Z ->
    backtrack2 dp items i st = Ok st' ->
    (0 <= acc_w st')%Z /\
    (sum_grid_weight (acc_items st') + acc_w st'
     = sum_grid_weight (acc_items st) + acc_w st)%Z /\
    acc_totalWeight st' - sum_weight (acc_items st')
    == acc_totalWeight st - sum_weight (acc_items st) /\
    exists i', (i' = O \/ acc_w st' = 0%Z) /\
               sum_profit (acc_items st') + best items i' (Z.to_nat (acc_w st'))
               == sum_profit (acc_items st) + best items i (Z.to_nat (acc_w st)).
Proof.
  intros [_ Hdp] Hg.
  induction i as [|i' IH]; intros st st' Hi Hw E.
  - simpl in E. injection E as <-.
    repeat split; try lia; try reflexivity.
    exists O. split; [now left | reflexivity].
  - rewrite backtrack2_S in E.
    destruct (0 <? acc_w st)%Z eqn:Egw.
    2:{ injection E as <-. apply Z.ltb_ge in Egw.
        repeat split; try lia; try reflexivity.
        exists (S i'). split; [right; lia | reflexivity]. }
    apply Z.ltb_lt in Egw. rewrite !Hdp in E by lia.
    destruct (Qeq_bool (best items (S i') (Z.to_nat (acc_w st)))
                (best items i' (Z.to_nat (acc_w st)))) eqn:Eq; simpl negb in E;
      cbv iota in E.
    + apply Qeq_bool_iff in Eq.
      destruct (IH st st' ltac:(lia) Hw E) as (H1 & H2 & H3 & i0 & H4 & H5).
      repeat split; try assumption.
      exists i0. split; [exact H4|]. rewrite H5, Eq. reflexivity.
    + apply Qeq_bool_neq in Eq. rewrite best_S in Eq.
      destruct (nth_error items i') as [item|] eqn:Eitem; [|discriminate].
      pose proof (grid_ok_nth _ _ _ Hg Eitem) as Hwt.
      destruct (Qfloor (weight item) <=? Z.of_nat (Z.to_nat (acc_w st)))%Z eqn:Ele;
        [|exfalso; apply Eq; reflexivity].
      apply Z.leb_le in Ele.
      destruct (Math_max_cases (best items i' (Z.to_nat (acc_w st)))
                  (best items i'
                     (Z.to_nat (Z.of_nat (Z.to_nat (acc_w st)) - Qfloor (weight item)))
                   + profit item)) as [[Hmax _]|[Hmax _]];
        [exfalso; apply Eq; rewrite Hmax; reflexivity|].
      destruct (IH (select_item item 0 st) st' ltac:(lia)) as (H1 & H2 & H3 & i0 & H4 & H5);
        [simpl; unfold Math_floor; lia | exact E |].
      simpl in H2, H3, H5. unfold Math_floor in *.
      rewrite sum_grid_weight_app in H2. rewrite sum_weight_app in H3.
      rewrite sum_profit_app in H5. simpl in H2, H3, H5.
      repeat split; [exact H1 | lia | lra |].
      exists i0. split; [exact H4|]. rewrite H5.
      rewrite best_S, Eitem.
      rewrite (proj2 (Z.leb_le _ _) Ele). rewrite Hmax.
      replace (Z.to_nat (Z.of_nat (Z.to_nat (acc_w st)) - Qfloor (weight item)))
        with (Z.to_nat (acc_w st - Qfloor (weight item))) by lia.
      lra.
Qed.




(** * Further properties of the service *)

(** ** The order of the checks of [validateProblem] *)

Lemma validateItems_skip (before rest : list CargoItemDto) (index : nat) :
  Forall item_ok before ->
  validateItems (before ++ rest) index
  = validateItems rest (index + List.length before).
Proof.
  intro H. revert index.
  induction H as [|item before [Hw Hp] Hrest IH]; intro index; simpl.
  - now rewrite Nat.add_0_r.
  - rewrite (proj2 (Qle_bool_false (weight item) 0) Hw).
    rewrite (proj2 (Qlt_bool_false (profit item) 0) Hp).
    rewrite IH. f_equal. lia.
Qed.

Lemma validateItems_Throw_message (l : list CargoItemDto) (index : nat)
  (e : Exception) :
  validateItems l index = Throw e ->
  exists i, e = BadRequestException (message_weight i) \/
            e = BadRequestException (message_profit i).
Proof.
  revert index. induction l as [|item rest IH]; intro index; simpl.
  - discriminate.
  - destruct (Qle_bool (weight item) 0).
    + intro H. injection H as <-. exists index. now left.
    + destruct (Qlt_bool (profit item) 0).
      * intro H. injection H as <-. exists index. now right.
      * apply IH.
Qed.

(** The checks run in a fixed order, and each message tells how far they
    went: the capacity message is thrown exactly when the capacity is
    not positive, whatever the items are; the message of the empty list
    exactly when the capacity is positive and there is no item; and the
    message of the duplicate identifiers exactly when the capacity is
    positive, there is an item, every item has passed its own checks and
    two items share an identifier. *)
Theorem validateProblem_precedence (problem : KnapsackProblemDto) :
  (validateProblem problem = Throw (BadRequestException message_capacity) <->
   capacity problem <= 0) /\
  (validateProblem problem = Throw (BadRequestException message_empty) <->
   0 < capacity problem /\ items problem = []) /\
  (validateProblem problem = Throw (BadRequestException message_duplicates) <->
   0 < capacity problem /\ items problem <> [] /\
   Forall item_ok (items problem) /\ ~ NoDup (map id (items problem))).
Proof.
  unfold validateProblem.
  destruct (Qle_bool (capacity problem) 0) eqn:Ec.
  { apply Qle_bool_true in Ec.
    split; [tauto|]. split; (split; [discriminate | intros [H _]; lra]). }
  apply Qle_bool_false in Ec.
  destruct (Nat.eqb_spec (List.length (items problem)) 0) as [En|En].
  { apply length_zero_iff_nil in En.
    split; [split; [discriminate | lra]|].
    split; [tauto|]. split; [discriminate | tauto]. }
  assert (Hne : items problem <> [])
    by (intro H; apply En; now rewrite H).
  destruct (validateItems (items problem) 0) as [[]|e] eqn:Ei; unfold bind.
  - apply validateItems_Ok in Ei.
    destruct (List.length (map id (items problem))
              =? List.length (Set_of (map id (items problem))))%nat eqn:El;
      cbn [negb].
    + apply Nat.eqb_eq, Set_of_size in El.
      split; [split; [discriminate | lra]|].
      split; [split; [discriminate | tauto]|].
      split; [discriminate | tauto].
    + assert (Hdup : ~ NoDup (map id (items problem))).
      { intro H. apply Set_of_size, Nat.eqb_eq in H. congruence. }
      split; [split; [discriminate | lra]|].
      split; [split; [discriminate | tauto]|].
      tauto.
  - assert (Hbad : ~ Forall item_ok (items problem)).
    { intro H. apply (validateItems_Ok _ 0%nat) in H. congruence. }
    destruct (validateItems_Throw_message _ _ _ Ei) as [i [-> | ->]];
      (split; [split; [discriminate | lra]|];
       split; [split; [discriminate | tauto]|];
       split; [discriminate | tauto]).
Qed.

Lemma validateProblem_precedence_witness :
  validateProblem (mkProblem 0 []) = Throw (BadRequestException message_capacity) /\
  validateProblem (mkProblem 5 []) = Throw (BadRequestException message_empty) /\
  validateProblem (mkProblem 5 [mkItem "1" "A" 1 1; mkItem "1" "B" 2 2])
  = Throw (BadRequestException message_duplicates).
Proof.
  split; [|split].
  - apply (proj1 (validateProblem_precedence (mkProblem 0 []))). discriminate.
  - apply (proj1 (proj2 (validateProblem_precedence (mkProblem 5 [])))).
    split; reflexivity.
  - apply (proj2 (proj2 (validateProblem_precedence
                           (mkProblem 5 [mkItem "1" "A" 1 1; mkItem "1" "B" 2 2])))).
    split; [reflexivity|]. split; [discriminate|]. split.
    + repeat constructor; simpl; discriminate.
    + intro H. inversion H as [|? ? Hnin _]. apply Hnin. now left.
Defined.

(** With a positive capacity, the item that is reported is the first one
    in input order that fails a check, under its index; on that item the
    weight is checked before the profit; and [solve] throws that very
    error. *)
Theorem validateProblem_reports_first_invalid_item (c : Q)
  (before after : list CargoItemDto) (item : CargoItemDto) :
  0 < c -> Forall item_ok before -> ~ item_ok item ->
  let message :=
    if Qle_bool (weight item) 0 then message_weight (List.length before)
    else message_profit (List.length before) in
  validateProblem (mkProblem c (before ++ item :: after))
  = Throw (BadRequestException message) /\
  solve (mkProblem c (before ++ item :: after))
  = Throw (BadRequestException message).
Proof.
  intros Hc Hbefore Hitem message.
  assert (E : validateProblem (mkProblem c (before ++ item :: after))
              = Throw (BadRequestException message)).
  { unfold validateProblem. cbn [capacity items].
    rewrite (proj2 (Qle_bool_false _ _) Hc).
    destruct (Nat.eqb_spec (List.length (before ++ item :: after)) 0) as [En|En].
    { rewrite length_app in En. simpl in En. lia. }
    rewrite (validateItems_skip before (item :: after) 0 Hbefore).
    simpl validateItems. subst message.
    destruct (Qle_bool (weight item) 0) eqn:Ew; [reflexivity|].
    destruct (Qlt_bool (profit item) 0) eqn:Ep; [reflexivity|].
    exfalso. apply Hitem. split.
    - now apply Qle_bool_false.
    - now apply Qlt_bool_false. }
  split; [exact E | now apply solve_invalid].
Qed.

Lemma validateProblem_reports_first_invalid_item_witness :
  validateProblem
    (mkProblem 5 ([mkItem "1" "A" 1 1] ++ mkItem "2" "B" 2 (-3) :: [mkItem "3" "C" 0 1]))
  = Throw (BadRequestException (message_profit 1)) /\
  solve
    (mkProblem 5 ([mkItem "1" "A" 1 1] ++ mkItem "2" "B" 2 (-3) :: [mkItem "3" "C" 0 1]))
  = Throw (BadRequestException (message_profit 1)).
Proof.
  apply (validateProblem_reports_first_invalid_item 5 [mkItem "1" "A" 1 1]
           [mkItem "3" "C" 0 1] (mkItem "2" "B" 2 (-3))).
  - reflexivity.
  - repeat constructor; simpl; discriminate.
  - intros [_ H]. apply H. reflexivity.
Defined.

(** ** The selection is made of input items *)

Lemma StronglySorted_gt_snoc (js : list nat) (i : nat) :
  StronglySorted gt js -> Forall (fun j => (i < j)%nat) js ->
  StronglySorted gt (js ++ [i]).
Proof.
  induction 1 as [|j js Hjs IH Hj]; intro Hall; simpl.
  - repeat constructor.
  - inversion Hall as [|? ? Hij Hall']. subst.
    constructor; [now apply IH|].
    apply Forall_app. split; [exact Hj|]. constructor; [exact Hij | constructor].
Qed.

Lemma backtrack2_picks (dp : table2) (items : list CargoItemDto) :
  forall i st st' js,
    backtrack2 dp items i st = Ok st' ->
    acc_ids st = map sel_id (acc_items st) ->
    picks items js (acc_items st) ->
    StronglySorted gt js -> Forall (fun j => (i <= j)%nat) js ->
    acc_ids st' = map sel_id (acc_items st') /\
    exists js', picks items js' (acc_items st') /\ StronglySorted gt js'.
Proof.
  induction i as [|i' IH]; intros st st' js E Hids Hpicks Hsorted Hall.
  - simpl in E. injection E as <-. eauto.
  - rewrite backtrack2_S in E.
    destruct (0 <? acc_w st)%Z; [|injection E as <-; eauto].
    destruct (negb _).
    + destruct (nth_error items i') as [item|] eqn:Eitem; [|discriminate].
      apply (IH _ _ (js ++ [i']) E).
      * simpl. rewrite map_app, Hids. reflexivity.
      * simpl. apply Forall2_app; [exact Hpicks|].
        constructor; [|constructor]. exists item. split; [exact Eitem | reflexivity].
      * apply StronglySorted_gt_snoc; [exact Hsorted|].
        eapply Forall_impl; [|exact Hall]. intros j Hj. simpl in Hj. lia.
      * apply Forall_app. split.
        -- eapply Forall_impl; [|exact Hall]. intros j Hj. simpl in Hj. lia.
        -- constructor; [lia | constructor].
    + apply (IH _ _ js E Hids Hpicks Hsorted).
      eapply Forall_impl; [|exact Hall]. intros j Hj. simpl in Hj. lia.
Qed.

Lemma picks_ids (items : list CargoItemDto) (js : list nat)
  (ds : list SelectedItemDetail) :
  picks items js ds ->
  map Some (map sel_id ds) = map (nth_error (map id items)) js.
Proof.
  induction 1 as [|j d js ds (item & Ej & ->) Hrest IH]; simpl; [reflexivity|].
  rewrite IH. rewrite nth_error_map, Ej. reflexivity.
Qed.

Lemma StronglySorted_gt_NoDup (js : list nat) : StronglySorted gt js -> NoDup js.
Proof.
  induction 1 as [|j js Hjs IH Hj]; constructor; [|exact IH].
  intro Hin. rewrite Forall_forall in Hj. specialize (Hj j Hin). lia.
Qed.

Lemma picks_NoDup (items : list CargoItemDto) (js : list nat)
  (ds : list SelectedItemDetail) :
  NoDup (map id items) -> picks items js ds -> StronglySorted gt js ->
  NoDup (map sel_id ds).
Proof.
  intros Hnd Hpicks Hsorted.
  apply (NoDup_map_inv Some). rewrite (picks_ids _ _ _ Hpicks).
  apply StronglySorted_gt_NoDup in Hsorted.
  assert (Hvalid : Forall (fun j => (j < List.length (map id items))%nat) js).
  { clear Hsorted. induction Hpicks as [|j d js ds (item & Ej & _) _ IH];
      constructor; [|exact IH].
    rewrite length_map. apply nth_error_Some. congruence. }
  clear Hpicks. induction Hsorted as [|j js Hnin Hjs IH]; simpl; [constructor|].
  inversion Hvalid as [|? ? Hj Hvalid']. subst.
  constructor; [|now apply IH].
  intro Hin. apply in_map_iff in Hin. destruct Hin as (j' & Ej' & Hin').
  rewrite NoDup_nth_error in Hnd.
  assert (j = j') by (apply Hnd; [exact Hj | now symmetry]).
  subst. contradiction.
Qed.

Lemma picks_incl (items : list CargoItemDto) (js : list nat)
  (ds : list SelectedItemDetail) :
  picks items js ds ->
  Forall (fun d => exists item, In item items /\ d = detail_of item) ds.
Proof.
  induction 1 as [|j d js ds (item & Ej & ->) Hrest IH]; constructor; [|exact IH].
  exists item. split; [eapply nth_error_In; exact Ej | reflexivity].
Qed.

Lemma solve_reconstruction (problem : KnapsackProblemDto)
  (solution : KnapsackSolutionDto) :
  solve problem = Ok solution ->
  preconditions problem /\ table_fits problem /\
  exists dp st,
    filled2 (items problem) (S (List.length (items problem)))
      (S (index_of (capacity problem))) (List.length (items problem)) dp /\
    backtrack2 dp (items problem) (List.length (items problem))
      (start (capacity problem) 0) = Ok st /\
    (acc_w (start (capacity problem) 0)
     < Z.of_nat (S (index_of (capacity problem))))%Z /\
    acc_ids st = map sel_id (acc_items st) /\
    Forall (fun d => exists item, In item (items problem) /\ d = detail_of item)
      (acc_items st) /\
    solution = solution_of (capacity problem) st
                 (best (items problem) (List.length (items problem))
                    (index_of (capacity problem))) method_solve.
Proof.
  intro E. destruct (solve_Ok_inv _ _ E) as [Hpre Hint].
  destruct (solve_integral problem Hpre Hint) as (dp & st & Hdp & Est & E').
  rewrite E' in E. injection E as <-.
  split; [exact Hpre|]. split; [exact Hint|]. exists dp, st.
  destruct (backtrack2_picks dp (items problem) _ _ _ [] Est)
    as (Hids & js & Hpicks & _);
    [reflexivity | constructor | constructor | constructor |].
  pose proof Hpre as (Hcap & _). pose proof (Qfloor_pos _ Hcap) as Hfl.
  split; [exact Hdp|]. split; [exact Est|].
  split; [simpl; unfold index_of; lia|]. split; [exact Hids|].
  split; [exact (picks_incl _ _ _ Hpicks) | reflexivity].
Qed.

(** A solution of [solve] selects input items only: the identifier list
    is the identifiers of the selected records, every selected record
    copies an input item, the records come in decreasing input position,
    and no identifier is selected twice. *)
Theorem solve_selects_input_items (problem : KnapsackProblemDto)
  (solution : KnapsackSolutionDto) :
  solve problem = Ok solution ->
  selectedItemIds solution = map sel_id (selectedItems solution) /\
  (exists js, StronglySorted gt js /\
              picks (items problem) js (selectedItems solution)) /\
  Forall (fun d => exists item, In item (items problem) /\ d = detail_of item)
    (selectedItems solution) /\
  NoDup (selectedItemIds solution) /\
  incl (selectedItemIds solution) (map id (items problem)).
Proof.
  intro E. destruct (solve_Ok_inv _ _ E) as [Hpre Hint].
  destruct (solve_integral problem Hpre Hint) as (dp & st & _ & Est & E').
  rewrite E' in E. injection E as <-.
  unfold solution_of. cbn [selectedItemIds selectedItems].
  destruct (backtrack2_picks dp (items problem) _ _ _ [] Est)
    as (Hids & js & Hpicks & Hsorted);
    [reflexivity | constructor | constructor | constructor |].
  pose proof (picks_incl _ _ _ Hpicks) as Hincl.
  split; [exact Hids|]. split; [eauto|]. split; [exact Hincl|]. split.
  - rewrite Hids. destruct Hpre as (_ & _ & _ & Hnd).
    now apply (picks_NoDup (items problem) js).
  - rewrite Hids. intros x Hx. apply in_map_iff in Hx.
    destruct Hx as (d & <- & Hd). rewrite Forall_forall in Hincl.
    destruct (Hincl d Hd) as (item & Hin & ->). simpl.
    apply in_map_iff. eauto.
Qed.

Lemma solve_selects_input_items_witness :
  exists solution,
    solve example_problem = Ok solution /\
    selectedItemIds solution = map sel_id (selectedItems solution) /\
    (exists js, StronglySorted gt js /\
                picks (items example_problem) js (selectedItems solution)) /\
    Forall (fun d => exists item, In item (items example_problem) /\ d = detail_of item)
      (selectedItems solution) /\
    NoDup (selectedItemIds solution) /\
    incl (selectedItemIds solution) (map id (items example_problem)).
Proof.
  eexists. split; [vm_compute; reflexivity|].
  apply (solve_selects_input_items example_problem). vm_compute. reflexivity.
Defined.

(** ** Weights: what the selection is guaranteed to respect *)



Lemma sum_weight_integral (items : list CargoItemDto) (ds : list SelectedItemDetail) :
  Forall (fun item => integral (weight item)) items ->
  Forall (fun d => exists item, In item items /\ d = detail_of item) ds ->
  sum_weight ds == inject_Z (sum_grid_weight ds).
Proof.
  intros Hint Hds. rewrite Forall_forall in Hint.
  induction Hds as [|d ds (item & Hin & ->) Hrest IH]; simpl; [reflexivity|].
  rewrite inject_Z_plus, IH. pose proof (Hint item Hin) as Hi.
  unfold integral in Hi. lra.
Qed.

Lemma Math_round_le (x : Q) (z : Z) : x <= inject_Z z -> (Math_round x <= z)%Z.
Proof.
  intro H. unfold Math_round.
  assert (Hlt : x + (1 # 2) < inject_Z (z + 1))
    by (rewrite inject_Z_plus; change (inject_Z 1) with 1; lra).
  pose proof (Qfloor_le (x + (1 # 2))) as Hfl.
  assert (Hz : inject_Z (Qfloor (x + (1 # 2))) < inject_Z (z + 1)) by lra.
  rewrite <- Zlt_Qlt in Hz. lia.
Qed.

Lemma Math_round_ge (x : Q) (z : Z) : inject_Z z <= x -> (z <= Math_round x)%Z.
Proof.
  intro H. unfold Math_round.
  rewrite <- (Qfloor_Z z). apply Qfloor_resp_le. lra.
Qed.

(** When every weight is an integer, the selection of [solve] fits the
    capacity exactly as reported: [totalWeight] is at most the capacity,
    [remainingCapacity] is not negative and [utilizationPercentage] lies
    between 0 and 100. *)
Theorem solve_integer_weights_fit (problem : KnapsackProblemDto)
  (solution : KnapsackSolutionDto) :
  Forall (fun item => integral (weight item)) (items problem) ->
  solve problem = Ok solution ->
  0 <= totalWeight solution <= capacity problem /\
  0 <= remainingCapacity solution /\
  remainingCapacity solution == capacity problem - totalWeight solution /\
  0 <= utilizationPercentage solution <= 100.
Proof.
  intros Hint E.
  destruct (solve_reconstruction _ _ E)
    as (Hpre & Hcapint & dp0 & st0 & Hdp0 & Est0 & Hstart & _ & Hincl0 & Es).
  assert (Hincl : Forall (fun d => exists item,
                              In item (items problem) /\ d = detail_of item)
                    (selectedItems solution)) by (rewrite Es; exact Hincl0).
  assert (Hrange : (0 <= acc_w (start (capacity problem) 0)
                    < Z.of_nat (S (index_of (capacity problem))))%Z)
    by (split; [exact (Qfloor_pos _ (proj1 Hpre)) | exact Hstart]).
  destruct (backtrack2_accounts dp0 (items problem) _ _ _ Hdp0
              (preconditions_grid_ok _ Hpre) _ _ _ (le_n _) Hrange Est0)
    as (Hw0 & Hsumw & Htw0 & _).
  assert (Hgrid : (sum_grid_weight (selectedItems solution)
                   <= Qfloor (capacity problem))%Z)
    by (rewrite Es; simpl in *; lia).
  assert (Htw : totalWeight solution == sum_weight (selectedItems solution))
    by (rewrite Es; simpl in *; lra).
  clear dp0 st0 Hdp0 Est0 Hstart Hrange Hincl0 Es Hw0 Hsumw Htw0.
  pose proof Hpre as (Hcap & _ & Hok & _).
  pose proof (sum_weight_integral _ _ Hint Hincl) as Hsum.
  assert (Hnonneg : 0 <= sum_weight (selectedItems solution)).
  { clear - Hincl Hok. rewrite Forall_forall in Hok.
    induction Hincl as [|d ds (item & Hin & ->) _ IH]; simpl; [lra|].
    destruct (Hok item Hin) as [Hw _]. lra. }
  assert (Hle : totalWeight solution <= capacity problem).
  { rewrite Htw, Hsum. apply Qle_trans with (inject_Z (Qfloor (capacity problem))).
    - now rewrite <- Zle_Qle.
    - apply Qfloor_le. }
  destruct (solve_integral problem Hpre Hcapint) as (dp & st & _ & _ & E').
  rewrite E' in E. injection E as <-.
  unfold solution_of in *.
  cbn [totalWeight remainingCapacity utilizationPercentage selectedItems] in *.
  set (tw := acc_totalWeight st) in *. set (c := capacity problem) in *.
  assert (Hratio : 0 <= tw / c <= 1).
  { split.
    - apply Qle_shift_div_l; [exact Hcap | lra].
    - apply Qle_shift_div_r; [exact Hcap | lra]. }
  repeat split; try lra.
  - apply Qle_shift_div_l; [reflexivity|].
    change (0 * 100) with (inject_Z 0). rewrite <- Zle_Qle.
    apply Math_round_ge. change (inject_Z 0) with 0. nra.
  - apply Qle_shift_div_r; [reflexivity|].
    change (100 * 100) with (inject_Z 10000). rewrite <- Zle_Qle.
    apply Math_round_le. change (inject_Z 10000) with 10000. nra.
Qed.

Lemma solve_integer_weights_fit_witness :
  Forall (fun item => integral (weight item)) (items example_problem) /\
  exists solution,
    solve example_problem = Ok solution /\
    0 <= totalWeight solution <= capacity example_problem /\
    0 <= remainingCapacity solution /\
    remainingCapacity solution == capacity example_problem - totalWeight solution /\
    0 <= utilizationPercentage solution <= 100.
Proof.
  assert (H : Forall (fun item => integral (weight item)) (items example_problem))
    by (repeat constructor).
  split; [exact H|].
  eexists. split; [vm_compute; reflexivity|].
  apply (solve_integer_weights_fit example_problem _ H). vm_compute. reflexivity.
Defined.

(** ** The reported profit is the optimum of the grid problem *)

Lemma best_mono_w (items : list CargoItemDto) :
  grid_ok items ->
  forall i w w', (w <= w')%nat -> best items i w <= best items i w'.
Proof.
  intro Hg. induction i as [|i' IH]; intros w w' Hw; [simpl; lra|].
  rewrite !best_S. destruct (nth_error items i') as [item|] eqn:E; [|now apply IH].
  pose proof (grid_ok_nth _ _ _ Hg E) as Hwt.
  destruct (Qfloor (weight item) <=? Z.of_nat w)%Z eqn:Ele.
  - apply Z.leb_le in Ele.
    rewrite (proj2 (Z.leb_le (Qfloor (weight item)) (Z.of_nat w')) ltac:(lia)).
    apply Math_max_mono; [now apply IH|].
    pose proof (IH (Z.to_nat (Z.of_nat w - Qfloor (weight item)))
                  (Z.to_nat (Z.of_nat w' - Qfloor (weight item))) ltac:(lia)).
    lra.
  - pose proof (IH w w' Hw).
    destruct (Qfloor (weight item) <=? Z.of_nat w')%Z; [|assumption].
    pose proof (Math_max_l (best items i' w')
                  (best items i' (Z.to_nat (Z.of_nat w' - Qfloor (weight item)))
                   + profit item)).
    lra.
Qed.

Lemma best_mono_i (items : list CargoItemDto) (i' w : nat) :
  best items i' w <= best items (S i') w.
Proof.
  rewrite best_S. destruct (nth_error items i') as [item|]; [|lra].
  destruct (Qfloor (weight item) <=? Z.of_nat w)%Z; [|lra].
  apply Math_max_l.
Qed.



(** ** Monotonicity in the capacity and in the item list *)



(** One more item at the end of the list never lowers the [totalProfit]
    of [solve]. *)
Theorem solve_monotone_in_items (c : Q) (l : list CargoItemDto) (item : CargoItemDto)
  (solution solution' : KnapsackSolutionDto) :
  solve (mkProblem c l) = Ok solution ->
  solve (mkProblem c (l ++ [item])) = Ok solution' ->
  totalProfit solution <= totalProfit solution'.
Proof.
  intros E E'.
  destruct (solve_Ok_inv _ _ E) as [Hpre Hint].
  destruct (solve_Ok_inv _ _ E') as [Hpre' Hint'].
  destruct (solve_integral _ Hpre Hint) as (dp & st & _ & _ & E1).
  destruct (solve_integral _ Hpre' Hint') as (dp' & st' & _ & _ & E2).
  rewrite E1 in E. injection E as <-. rewrite E2 in E'. injection E' as <-.
  unfold solution_of. cbn [totalProfit items capacity].
  rewrite length_app, Nat.add_comm. cbn [List.length Nat.add].
  rewrite (best_agree l (l ++ [item]) (List.length l)).
  - apply best_mono_i.
  - intros j Hj. symmetry. now apply nth_error_app1.
Qed.

Lemma solve_monotone_in_items_witness :
  exists solution solution',
    solve (mkProblem 50 [mkItem "1" "A" 10 100]) = Ok solution /\
    solve (mkProblem 50 ([mkItem "1" "A" 10 100] ++ [mkItem "2" "B" 20 150]))
    = Ok solution' /\
    totalProfit solution <= totalProfit solution'.
Proof.
  eexists. eexists. split; [vm_compute; reflexivity|].
  split; [vm_compute; reflexivity|].
  apply (solve_monotone_in_items 50 [mkItem "1" "A" 10 100] (mkItem "2" "B" 20 150));
    vm_compute; reflexivity.
Defined.

(** ** Items that do not fit, items that bring nothing *)





Lemma backtrack2_profitable (dp : table2) (items : list CargoItemDto)
  (rows cols n : nat) :
  filled2 items rows cols n dp -> Forall item_ok items ->
  forall i st st',
    (i <= n)%nat -> (acc_w st < Z.of_nat cols)%Z ->
    backtrack2 dp items i st = Ok st' ->
    Forall (fun d => 0 < sel_profit d) (acc_items st) ->
    Forall (fun d => 0 < sel_profit d) (acc_items st').
Proof.
  intros [_ Hdp] Hok.
  pose proof (item_ok_grid_ok _ Hok) as Hg.
  induction i as [|i' IH]; intros st st' Hi Hw E Hpos.
  - simpl in E. now injection E as <-.
  - rewrite backtrack2_S in E.
    destruct (0 <? acc_w st)%Z eqn:Eg; [|now injection E as <-].
    apply Z.ltb_lt in Eg. rewrite !Hdp in E by lia.
    destruct (Qeq_bool (best items (S i') (Z.to_nat (acc_w st)))
                (best items i' (Z.to_nat (acc_w st)))) eqn:Eq; simpl negb in E;
      cbv iota in E.
    + apply (IH st st'); [lia | exact Hw | exact E | exact Hpos].
    + apply Qeq_bool_neq in Eq. rewrite best_S in Eq.
      destruct (nth_error items i') as [item|] eqn:Eitem; [|discriminate].
      pose proof (grid_ok_nth _ _ _ Hg Eitem) as Hwt.
      rewrite Forall_forall in Hok.
      destruct (Hok item (nth_error_In _ _ Eitem)) as [_ Hp].
      apply (IH (select_item item 0 st) st');
        [lia | simpl; unfold Math_floor; lia | exact E |].
      simpl. apply Forall_app. split; [exact Hpos|].
      constructor; [|constructor]. simpl.
      destruct (Qlt_le_dec 0 (profit item)) as [Hlt|Hle]; [exact Hlt|].
      exfalso. apply Eq.
      destruct (Qfloor (weight item) <=? Z.of_nat (Z.to_nat (acc_w st)))%Z;
        [|reflexivity].
      pose proof (best_mono_w items Hg i'
                    (Z.to_nat (Z.of_nat (Z.to_nat (acc_w st)) - Qfloor (weight item)))
                    (Z.to_nat (acc_w st)) ltac:(lia)) as Hmono.
      destruct (Math_max_cases (best items i' (Z.to_nat (acc_w st)))
                  (best items i'
                     (Z.to_nat (Z.of_nat (Z.to_nat (acc_w st)) - Qfloor (weight item)))
                   + profit item)) as [[-> _]|[-> Hmax]]; [reflexivity | lra].
Qed.

Lemma NoDup_map_In_inj {A B : Type} (f : A -> B) (l : list A) (x y : A) :
  NoDup (map f l) -> In x l -> In y l -> f x = f y -> x = y.
Proof.
  induction l as [|a l IH]; simpl; intros Hnd Hx Hy Hf; [contradiction|].
  inversion Hnd as [|? ? Hnin Hnd']. subst.
  destruct Hx as [->|Hx], Hy as [->|Hy].
  - reflexivity.
  - exfalso. apply Hnin. rewrite Hf. now apply in_map.
  - exfalso. apply Hnin. rewrite <- Hf. now apply in_map.
  - now apply IH.
Qed.

(** [solve] selects only items that bring something: every selected
    record has a positive profit, and an input item of profit 0 is never
    among the selected identifiers. *)
Theorem solve_selects_profitable_items (problem : KnapsackProblemDto)
  (solution : KnapsackSolutionDto) :
  solve problem = Ok solution ->
  Forall (fun d => 0 < sel_profit d) (selectedItems solution) /\
  forall item, In item (items problem) -> profit item == 0 ->
               ~ In (id item) (selectedItemIds solution).
Proof.
  intro E.
  destruct (solve_reconstruction _ _ E)
    as (Hpre & Hint & dp & st & Hdp & Est & _ & Hids & Hincl & ->).
  unfold solution_of in *. cbn [selectedItems selectedItemIds] in *.
  pose proof Hpre as (Hcap & _ & Hok & Hnd).
  pose proof (Qfloor_pos _ Hcap) as Hfl.
  assert (Hpos : Forall (fun d => 0 < sel_profit d) (acc_items st)).
  { apply (backtrack2_profitable dp (items problem) _ _ _ Hdp Hok
             (List.length (items problem)) (start (capacity problem) 0) st (le_n _)).
    - simpl. unfold index_of. lia.
    - exact Est.
    - constructor. }
  split; [exact Hpos|].
  intros item Hin Hzero Hsel. rewrite Hids in Hsel.
  apply in_map_iff in Hsel. destruct Hsel as (d & Hd & Hind).
  rewrite Forall_forall in Hincl, Hpos.
  destruct (Hincl d Hind) as (item' & Hin' & ->).
  specialize (Hpos _ Hind). simpl in Hd, Hpos.
  assert (item' = item) by (apply (NoDup_map_In_inj id (items problem)); assumption).
  subst. lra.
Qed.

Lemma solve_selects_profitable_items_witness :
  exists solution,
    solve (mkProblem 50 [mkItem "1" "A" 10 100; mkItem "2" "B" 20 0]) = Ok solution /\
    Forall (fun d => 0 < sel_profit d) (selectedItems solution) /\
    forall item,
      In item (items (mkProblem 50 [mkItem "1" "A" 10 100; mkItem "2" "B" 20 0])) ->
      profit item == 0 -> ~ In (id item) (selectedItemIds solution).
Proof.
  eexists. split; [vm_compute; reflexivity|].
  apply (solve_selects_profitable_items
           (mkProblem 50 [mkItem "1" "A" 10 100; mkItem "2" "B" 20 0])).
  vm_compute. reflexivity.
Defined.

(** ** The bounded variant is [solve] on the prefix *)






(** ** Ties in [calculateEfficiency] *)

Lemma sort_insert_filter {A : Type} (key : A -> Q) (q : Q) (x : A) (l : list A) :
  filter (fun e => Qeq_bool (key e) q) (sort_insert (fun a b => key b - key a) x l)
  = filter (fun e => Qeq_bool (key e) q) (x :: l).
Proof.
  induction l as [|y rest IH]; [reflexivity|].
  cbn [sort_insert].
  destruct (Qle_bool (key y - key x) 0) eqn:E; [reflexivity|].
  apply Qle_bool_false in E.
  cbn [filter] in *. rewrite IH.
  destruct (Qeq_bool (key x) q) eqn:Ex; [|reflexivity].
  destruct (Qeq_bool (key y) q) eqn:Ey; [|reflexivity].
  apply Qeq_bool_iff in Ex, Ey. lra.
Qed.

(** [calculateEfficiency] keeps ties in input order: for a problem whose
    items all have a positive weight, the items of any given efficiency
    come out in the order in which they came in. *)
Theorem calculateEfficiency_stable (problem : KnapsackProblemDto) (q : Q) :
  Forall (fun item => 0 < weight item) (items problem) ->
  filter (fun e => Qeq_bool (efficiency e) q) (calculateEfficiency problem)
  = map with_efficiency
      (filter (fun item => Qeq_bool (profit item / weight item) q) (items problem)).
Proof.
  intros _. unfold calculateEfficiency.
  change (fun item => {| eff_item := item; efficiency := profit item / weight item |})
    with with_efficiency.
  induction (items problem) as [|x l IH]; [reflexivity|].
  cbn [map Array_sort]. rewrite sort_insert_filter. cbn [filter].
  rewrite IH. cbn [with_efficiency efficiency].
  destruct (Qeq_bool (profit x / weight x) q); reflexivity.
Qed.

Lemma calculateEfficiency_stable_witness :
  Forall (fun item => 0 < weight item)
    (items (mkProblem 10 [mkItem "1" "A" 2 4; mkItem "2" "B" 1 5; mkItem "3" "C" 3 6])) /\
  filter (fun e => Qeq_bool (efficiency e) 2)
    (calculateEfficiency
       (mkProblem 10 [mkItem "1" "A" 2 4; mkItem "2" "B" 1 5; mkItem "3" "C" 3 6]))
  = [with_efficiency (mkItem "1" "A" 2 4); with_efficiency (mkItem "3" "C" 3 6)].
Proof.
  assert (H : Forall (fun item => 0 < weight item)
                (items (mkProblem 10 [mkItem "1" "A" 2 4; mkItem "2" "B" 1 5;
                                      mkItem "3" "C" 3 6])))
    by (repeat constructor).
  split; [exact H|].
  rewrite (calculateEfficiency_stable _ 2 H). reflexivity.
Defined.

(** ** Batches *)

Lemma Array_map_app {A B : Type} (f : A -> result B) (l1 l2 : list A) :
  Array_map f (l1 ++ l2)
  = (ys1 <- Array_map f l1 ;; ys2 <- Array_map f l2 ;; Ok (ys1 ++ ys2)).
Proof.
  induction l1 as [|x l1 IH]; simpl.
  - destruct (Array_map f l2); reflexivity.
  - destruct (f x) as [y|e]; simpl; [|reflexivity].
    rewrite IH. destruct (Array_map f l1) as [ys1|e1]; simpl; [|reflexivity].
    destruct (Array_map f l2); reflexivity.
Qed.

(** A batch can be split: [optimizeMultipleScenarios] on two lists put
    end to end is the first batch followed by the second, and it throws
    what the first batch throws, or else what the second one throws.  A
    batch that returns has one solution per problem. *)
Theorem optimizeMultipleScenarios_app (l1 l2 : list KnapsackProblemDto) :
  optimizeMultipleScenarios (l1 ++ l2)
  = (s1 <- optimizeMultipleScenarios l1 ;;
     s2 <- optimizeMultipleScenarios l2 ;; Ok (s1 ++ s2)) /\
  forall solutions,
    optimizeMultipleScenarios l1 = Ok solutions ->
    List.length solutions = List.length l1.
Proof.
  split.
  - apply Array_map_app.
  - intros solutions E. apply Array_map_Ok in E.
    symmetry. exact (Forall2_length E).
Qed.

(** ** What the form lets through *)

(** A route configuration that the form schema accepts, taken as a
    knapsack problem (its capacity and its available items), always
    passes the capacity check and the profit checks of
    [validateProblem]; it passes the whole validation exactly when its
    item list is not empty, no item has weight 0 and no two items share
    an identifier, three things the form does not check. *)
Theorem form_schema_against_validateProblem (r : RouteCargoConfig) :
  routeCargoConfig_schema r = true ->
  0 < route_capacity r /\
  Forall (fun item => 0 <= profit item) (availableItems r) /\
  (validateProblem (mkProblem (route_capacity r) (availableItems r)) = Ok tt <->
   availableItems r <> [] /\
   Forall (fun item => ~ weight item == 0) (availableItems r) /\
   NoDup (map id (availableItems r))).
Proof.
  unfold routeCargoConfig_schema, z_array, z_number_min.
  rewrite !andb_true_iff. intros [[_ Hc] Hitems].
  apply Qle_bool_true in Hc. rewrite forallb_forall in Hitems.
  assert (Hfields : forall item, In item (availableItems r) ->
                                 0 <= weight item /\ 0 <= profit item).
  { intros item Hin. specialize (Hitems item Hin).
    unfold availableItem_schema, z_number_min in Hitems.
    rewrite !andb_true_iff in Hitems. destruct Hitems as [[_ Hw] Hp].
    split; now apply Qle_bool_true. }
  split; [lra|]. split.
  { apply Forall_forall. intros item Hin. now apply Hfields. }
  rewrite validateProblem_Ok. unfold preconditions. cbn [capacity items].
  split.
  - intros (_ & Hne & Hok & Hnd). split; [exact Hne|]. split; [|exact Hnd].
    eapply Forall_impl; [|exact Hok]. intros item [Hw _]. lra.
  - intros (Hne & Hw & Hnd). split; [lra|]. split; [exact Hne|]. split; [|exact Hnd].
    rewrite Forall_forall in *. intros item Hin.
    destruct (Hfields item Hin) as [Hw0 Hp]. specialize (Hw item Hin).
    split; [|exact Hp].
    destruct (Qlt_le_dec 0 (weight item)) as [Hlt|Hle]; [exact Hlt|].
    exfalso. apply Hw. lra.
Qed.

Lemma form_schema_against_validateProblem_witness :
  routeCargoConfig_schema
    (mkRoute "Centro A" "Ciudad X" 50 [mkItem "1" "A" 0 100]) = true /\
  0 < 50 /\
  ~ validateProblem (mkProblem 50 [mkItem "1" "A" 0 100]) = Ok tt.
Proof.
  assert (H : routeCargoConfig_schema
                (mkRoute "Centro A" "Ciudad X" 50 [mkItem "1" "A" 0 100]) = true)
    by reflexivity.
  split; [exact H|].
  destruct (form_schema_against_validateProblem _ H) as (Hc & _ & Hiff).
  split; [exact Hc|].
  intro Hv. apply Hiff in Hv. destruct Hv as (_ & Hw & _).
  inversion Hw as [|? ? Hzero _]. apply Hzero. reflexivity.
Defined.

(** ** The bounded variant against [solve] on the whole list *)




(** ** What the solvers throw after validation *)


